(** * perf-test.js: the load test of the Groups API, embedded and verified

    The script is a sequence of HTTP calls.  It is embedded as state-passing
    code over a [world] that holds the script's clock, the exchanges made so
    far (every request together with the reply it got) and the number of
    random values drawn.  The services at the other end are an [environment]:
    functions from the exchanges made so far and the request to a reply, so
    a server may answer differently every time it is asked.

    Conventions.
    - [axios] rejects a promise (network failure, or a status outside 2xx
      under its default [validateStatus]); a reply is therefore either
      [Rejected] or [Resolved] with a status and a body.
    - A reply carries [took], the milliseconds by which the script's clock
      advances while the call is awaited; [new Date().getTime()] reads the
      clock.
    - Bodies are typed by endpoint (the payload the API documents).  A
      body that lacks the documented fields, on which the script would
      raise a TypeError, and an array too large to be spread into [push]
      (a RangeError of the engine) are outside the model; the theorems that
      assert a return, or list the causes of a throw, bound the arrays.
    - Calls to [logger.info] leave the world unchanged and are left out.
    - [while] and [for] loops take fuel; a run that exhausts it is
      [OutOfFuel], which is neither a value nor an error. *)

From Stdlib Require Import ZArith String Ascii Bool Arith Lia List.
From Stdlib Require DecimalString.
Import ListNotations.

Local Open Scope string_scope.
Local Open Scope list_scope.
Local Open Scope Z_scope.
Local Open Scope nat_scope.

(** ** Data model *)

(** A record of the Members API, asked with [fields: 'userId']. *)
Record member := { userId : string }.

(** An element of the [members] array sent to the bulk-add endpoint. *)
Record group_member := { memberId : string; membershipType : string }.

(** An element of the [members] array of a bulk-add response. *)
Record member_result := { mr_memberId : string; mr_status : string }.

(** The body of the group endpoints; only [id] is read. *)
Record group := { id : string }.

(** The body of a bulk-add response; [resp.data.members] is
    [body_members (data resp)]. *)
Record bulk_body := { body_members : list member_result }.

Record response (A : Type) := { status : Z; data : A }.
Arguments status {A} _.
Arguments data {A} _.

Inductive answer (A : Type) :=
| Rejected (reason : string)
| Resolved (resp : response A).
Arguments Rejected {A} _.
Arguments Resolved {A} _.

Record reply (A : Type) := { took : Z; answered : answer A }.
Arguments took {A} _.
Arguments answered {A} _.

(** One HTTP call and what came back. *)
Inductive exchange :=
| GetToken (r : reply string)
| GetMembers (accessToken : string) (page perPage : nat) (r : reply (list member))
| GetHealth (accessToken : string) (r : reply unit)
| PostGroup (accessToken name : string) (r : reply group)
| PatchGroup (accessToken groupId oldId : string) (r : reply group)
| DeleteGroup (accessToken groupId : string) (r : reply group)
| PostMembers (accessToken groupId : string) (chunk : list group_member)
              (r : reply bulk_body).

(** What the script talks to.  Every service sees the exchanges made so
    far. *)
Record environment := {
  auth0 : list exchange -> reply string;
  members_api : list exchange -> string -> nat -> nat -> reply (list member);
  health_api : list exchange -> string -> reply unit;
  post_group : list exchange -> string -> string -> reply group;
  patch_group : list exchange -> string -> string -> string -> reply group;
  delete_group : list exchange -> string -> string -> reply group;
  post_members : list exchange -> string -> string -> list group_member ->
                 reply bulk_body;
  uuid_v4 : nat -> string;
  lodash_random : nat -> Z;
  AUTH0_CLIENT_ID : option string;
  AUTH0_CLIENT_SECRET : option string;
  INITIAL_MEMBER_SIZE : nat
}.

Record world := { clock : Z; trace : list exchange; draws : nat }.

(** ** Errors and string conversion *)

Inductive error :=
| AxiosError (reason : string)
| Error (message : string).

(** JavaScript's [ToString], as a template literal applies it. *)
Class ToString (A : Type) := toString : A -> string.

#[global] Instance ToString_string : ToString string := fun s => s.
#[global] Instance ToString_Z : ToString Z :=
  fun z => DecimalString.NilZero.string_of_int (Z.to_int z).
#[global] Instance ToString_nat : ToString nat :=
  fun n => toString (Z.of_nat n).
#[global] Instance ToString_member_result : ToString member_result :=
  fun _ => "[object Object]".
#[global] Instance ToString_group : ToString group :=
  fun _ => "[object Object]".
#[global] Instance ToString_bulk_body : ToString bulk_body :=
  fun _ => "[object Object]".
#[global] Instance ToString_list {A} `{ToString A} : ToString (list A) :=
  fun l => String.concat "," (map toString l).

(** ** Outcomes and the script's monad *)

Inductive outcome (A : Type) :=
| Ok (a : A)
| Throw (e : error)
| OutOfFuel.
Arguments Ok {A} _.
Arguments Throw {A} _.
Arguments OutOfFuel {A}.

Definition M (A : Type) : Type := world -> outcome A * world.

Definition ret {A} (a : A) : M A := fun w => (Ok a, w).

Definition throw {A} (e : error) : M A := fun w => (Throw e, w).

Definition bind {A B} (m : M A) (k : A -> M B) : M B :=
  fun w =>
    match m w with
    | (Ok a, w1) => k a w1
    | (Throw e, w1) => (Throw e, w1)
    | (OutOfFuel, w1) => (OutOfFuel, w1)
    end.

(** [try { body } finally { cleanup }]: the cleanup runs after the body
    whether it returned or threw; an error of the cleanup replaces the
    body's outcome. *)
Definition try_finally {A B} (body : M A) (cleanup : M B) : M A :=
  fun w =>
    match body w with
    | (OutOfFuel, w1) => (OutOfFuel, w1)
    | (o, w1) =>
        match cleanup w1 with
        | (Ok _, w2) => (o, w2)
        | (Throw e, w2) => (Throw e, w2)
        | (OutOfFuel, w2) => (OutOfFuel, w2)
        end
    end.

Declare Scope script_scope.
Delimit Scope script_scope with script.
Notation "x <- m ;; k" := (bind m (fun x => k))
  (at level 61, m at next level, right associativity) : script_scope.
Notation "m ;;; k" := (bind m (fun _ => k))
  (at level 61, right associativity) : script_scope.

(** [new Date().getTime()] *)
Definition getTime : M Z := fun w => (Ok (clock w), w).

(** [sleep(ms)] resolves after [ms] milliseconds. *)
Definition sleep (ms : Z) : M unit :=
  fun w => (Ok tt, {| clock := (clock w + ms)%Z; trace := trace w; draws := draws w |}).

(** The next value of a random source. *)
Definition draw {A} (source : nat -> A) : M A :=
  fun w => (Ok (source (draws w)),
            {| clock := clock w; trace := trace w; draws := S (draws w) |}).

(** An awaited call: the exchange is recorded, the clock advances, and a
    rejected promise is thrown. *)
Definition await {A} (r : reply A) (x : exchange) : M (response A) :=
  fun w =>
    let w1 := {| clock := (clock w + took r)%Z;
                 trace := trace w ++ [x];
                 draws := draws w |} in
    match answered r with
    | Rejected reason => (Throw (AxiosError reason), w1)
    | Resolved resp => (Ok resp, w1)
    end.

Section Script.

Variable env : environment.

(** ** The calls of the script *)

Definition axios_get_members (page pageSize : nat) (accessToken : string)
  : M (response (list member)) :=
  fun w =>
    let r := members_api env (trace w) accessToken page pageSize in
    await r (GetMembers accessToken page pageSize r) w.

Definition axios_get_health (accessToken : string) : M (response unit) :=
  fun w =>
    let r := health_api env (trace w) accessToken in
    await r (GetHealth accessToken r) w.

Definition axios_post_group (name accessToken : string) : M (response group) :=
  fun w =>
    let r := post_group env (trace w) accessToken name in
    await r (PostGroup accessToken name r) w.

Definition axios_patch_group (groupId oldId accessToken : string)
  : M (response group) :=
  fun w =>
    let r := patch_group env (trace w) accessToken groupId oldId in
    await r (PatchGroup accessToken groupId oldId r) w.

Definition axios_delete_group (groupId accessToken : string)
  : M (response group) :=
  fun w =>
    let r := delete_group env (trace w) accessToken groupId in
    await r (DeleteGroup accessToken groupId r) w.

Definition axios_post_members (groupId : string) (chunk : list group_member)
  (accessToken : string) : M (response bulk_body) :=
  fun w =>
    let r := post_members env (trace w) accessToken groupId chunk in
    await r (PostMembers accessToken groupId chunk r) w.

(** [helper.getM2Mtoken()]: the helper is outside this file; it asks the
    identity provider and returns the token or throws. *)
Definition getM2Mtoken : M string :=
  fun w =>
    let r := auth0 env (trace w) in
    match await r (GetToken r) w with
    | (Ok resp, w1) => (Ok (data resp), w1)
    | (Throw e, w1) => (Throw e, w1)
    | (OutOfFuel, w1) => (OutOfFuel, w1)
    end.

Local Open Scope script_scope.

(** ** getMembers, getNMembers *)

Definition getMembers (page pageSize : nat) (accessToken : string)
  : M (list member) :=
  resp <- axios_get_members page pageSize accessToken ;;
  ret (data resp).

Definition maxPageSize : nat := 100.

(** The [while (members.length < n)] loop, with its locals [members] and
    [page]. *)
Fixpoint getNMembers_loop (fuel : nat) (n : nat) (accessToken : string)
  (members : list member) (page : nat) : M (list member) :=
  if length members <? n then
    match fuel with
    | O => fun w => (OutOfFuel, w)
    | S fuel' =>
        let diff := n - length members in
        if diff <=? maxPageSize then
          fetched <- getMembers page diff accessToken ;;
          sleep 100 ;;;
          getNMembers_loop fuel' n accessToken (members ++ fetched) page
        else
          fetched <- getMembers page maxPageSize accessToken ;;
          sleep 100 ;;;
          getNMembers_loop fuel' n accessToken (members ++ fetched) (page + 1)
    end
  else ret members.

Definition getNMembers (fuel : nat) (n : nat) (accessToken : string)
  : M (list member) :=
  getNMembers_loop fuel n accessToken [] 1.

(** ** groupApiHealthCheck *)

Definition groupApiHealthCheck (accessToken : string) : M unit :=
  resp <- axios_get_health accessToken ;;
  if negb (status resp =? 200)%Z then
    throw (Error ("Health check failed " ++ "[object Object]"))
  else ret tt.

(** ** patchTestGroup, createTestGroup, deleteTestGroup *)

Definition patchTestGroup (groupId accessToken : string) : M unit :=
  oldId <- draw (uuid_v4 env) ;;
  resp <- axios_patch_group groupId oldId accessToken ;;
  if negb (status resp =? 200)%Z then
    throw (Error ("Failed to patch test group " ++ groupId ++ ": "
                  ++ toString (data resp)))
  else ret tt.

Definition createTestGroup (accessToken : string) : M string :=
  u <- draw (uuid_v4 env) ;;
  resp <- axios_post_group ("TestGroup-" ++ u) accessToken ;;
  if negb (status resp =? 200)%Z then
    throw (Error ("Failed to create test group: " ++ toString (data resp)))
  else
    patchTestGroup (id (data resp)) accessToken ;;;
    ret (id (data resp)).

Definition deleteTestGroup (groupId accessToken : string) : M group :=
  resp <- axios_delete_group groupId accessToken ;;
  if negb (status resp =? 200)%Z then
    throw (Error ("Failed to delete test group " ++ groupId ++ ": "
                  ++ toString (data resp)))
  else ret (data resp).

(** ** addMembers *)

Definition chunkSize : nat := 100.

(** [l.slice(start, stop)] for [start <= stop]. *)
Definition slice {A} (l : list A) (start stop : nat) : list A :=
  firstn (stop - start) (skipn start l).

(** [member.status === 'failed'] *)
Definition is_failed (m : member_result) : bool :=
  String.eqb (mr_status m) "failed".

(** The [for (let i = 0; i < members.length; i += chunkSize)] loop.  Its
    locals are [i] and the array [result]; the array is returned next to
    the outcome, as it is when the loop is left, by a throw too. *)
Fixpoint addMembers_loop (fuel : nat) (groupId : string)
  (members : list group_member) (accessToken : string)
  (i : nat) (result : list member_result) (w : world)
  : outcome unit * list member_result * world :=
  if i <? length members then
    match fuel with
    | O => (OutOfFuel, result, w)
    | S fuel' =>
        let chunk := slice members i (i + chunkSize) in
        let st := clock w in
        match axios_post_members groupId chunk accessToken w with
        | (Ok resp, w1) =>
            if negb (status resp =? 200)%Z then
              (Throw (Error ("Failed to add bulk member to group " ++ groupId
                             ++ ": " ++ toString (data resp))), result, w1)
            else
              let et := clock w1 in
              if (et - st >? 30000)%Z then
                (Throw (Error ("API call exceeds 30 seconds limit: "
                               ++ toString (et - st)%Z ++ " ms")), result, w1)
              else if existsb is_failed (body_members (data resp)) then
                (Throw (Error ("Failed to add some members: "
                               ++ toString (filter is_failed
                                              (body_members (data resp))))),
                 result, w1)
              else
                addMembers_loop fuel' groupId members accessToken
                  (i + chunkSize) (result ++ body_members (data resp)) w1
        | (Throw e, w1) => (Throw e, result, w1)
        | (OutOfFuel, w1) => (OutOfFuel, result, w1)
        end
    end
  else (Ok tt, result, w).

(** The run of the loop from [i = 0] and [result = []]; every iteration
    advances [i] by [chunkSize], so [length members] iterations are
    enough. *)
Definition addMembers_run (groupId : string) (members : list group_member)
  (accessToken : string) (w : world)
  : outcome unit * list member_result * world :=
  addMembers_loop (length members) groupId members accessToken 0 [] w.

Definition addMembers (groupId : string) (members : list group_member)
  (accessToken : string) : M (list member_result) :=
  fun w =>
    match addMembers_run groupId members accessToken w with
    | (Ok _, result, w1) => (Ok result, w1)
    | (Throw e, _, w1) => (Throw e, w1)
    | (OutOfFuel, _, w1) => (OutOfFuel, w1)
    end.

(** ** main *)

(** [!config.X]: the key is missing or empty. *)
Definition falsy (v : option string) : bool :=
  match v with
  | None => true
  | Some s => String.eqb s ""
  end.

(** [for (let i = 0; i < INITIAL_MEMBER_SIZE; ++i) members.push(...)] *)
Fixpoint random_members (count : nat) (members : list member) : M (list member) :=
  match count with
  | O => ret members
  | S count' =>
      r <- draw (lodash_random env) ;;
      random_members count' (members ++ [{| userId := toString r |}])
  end.

Definition to_group_member (m : member) : group_member :=
  {| memberId := userId m; membershipType := "user" |}.

Definition main : M unit :=
  if falsy (AUTH0_CLIENT_ID env) then
    throw (Error "Missing required config: AUTH0_CLIENT_ID")
  else if falsy (AUTH0_CLIENT_SECRET env) then
    throw (Error "Missing required config: AUTH0_CLIENT_SECRET")
  else
    accessToken <- getM2Mtoken ;;
    members <- random_members (INITIAL_MEMBER_SIZE env) [] ;;
    groupApiHealthCheck accessToken ;;;
    groupId <- createTestGroup accessToken ;;
    try_finally
      (st <- getTime ;;
       resp <- addMembers groupId (map to_group_member members) accessToken ;;
       et <- getTime ;;
       ret tt)
      (deleteTestGroup groupId accessToken).

(** [main().then(...).catch(...)]: what the process logs last. *)
Inductive final_log :=
| LogInfo (message : string)
| LogError (e : error)
| NoLog.

Definition script (w : world) : final_log * world :=
  match main w with
  | (Ok _, w1) => (LogInfo "Perf test finished.", w1)
  | (Throw e, w1) => (LogError e, w1)
  | (OutOfFuel, w1) => (NoLog, w1)
  end.

End Script.

(** ** Concrete environments

    Small environments on which the script is run in the examples below. *)

Definition resolved {A} (ms : Z) (code : Z) (body : A) : reply A :=
  {| took := ms; answered := Resolved {| status := code; data := body |} |}.

Definition rejected {A} (ms : Z) (reason : string) : reply A :=
  {| took := ms; answered := Rejected reason |}.

(** An environment with the given directory and bulk-add services; the
    identity provider, the health check and the group endpoints answer 200,
    and the group created has id ["g1"]. *)
Definition env_with
  (directory : list exchange -> string -> nat -> nat -> reply (list member))
  (patch : list exchange -> string -> string -> string -> reply group)
  (bulk : list exchange -> string -> string -> list group_member ->
          reply bulk_body)
  (size : nat) : environment :=
  {| auth0 := fun _ => resolved 20 200 "token";
     members_api := directory;
     health_api := fun _ _ => resolved 5 200 tt;
     post_group := fun _ _ _ => resolved 30 200 {| id := "g1" |};
     patch_group := patch;
     delete_group := fun _ _ groupId => resolved 30 200 {| id := groupId |};
     post_members := bulk;
     uuid_v4 := fun k => ("uuid-" ++ toString k)%string;
     lodash_random := fun k => (10000000 + Z.of_nat k)%Z;
     AUTH0_CLIENT_ID := Some "client";
     AUTH0_CLIENT_SECRET := Some "secret";
     INITIAL_MEMBER_SIZE := size |}.

(** A directory that returns as many records as asked for. *)
Definition full_pages : list exchange -> string -> nat -> nat -> reply (list member) :=
  fun _ _ page perPage =>
    resolved 40 200 (repeat {| userId := ("user-" ++ toString page)%string |} perPage).


(** A directory whose pages hold at most 30 records. *)
Definition short_pages : list exchange -> string -> nat -> nat -> reply (list member) :=
  fun _ _ page perPage =>
    resolved 40 200
      (repeat {| userId := ("user-" ++ toString page)%string |} (min perPage 30)).

(** A directory that answers two calls and rejects the following ones. *)
Definition two_pages_then_down
  : list exchange -> string -> nat -> nat -> reply (list member) :=
  fun history _ page perPage =>
    if length history <? 2 then
      resolved 40 200 (repeat {| userId := ("user-" ++ toString page)%string |} perPage)
    else rejected 40 "timeout of 1000ms exceeded".

Definition patch_ok : list exchange -> string -> string -> string -> reply group :=
  fun _ _ groupId _ => resolved 30 200 {| id := groupId |}.

(** A bulk-add service that reports every member of the chunk as added, in
    [ms] milliseconds. *)
Definition bulk_success (ms : Z)
  : list exchange -> string -> string -> list group_member -> reply bulk_body :=
  fun _ _ _ chunk =>
    resolved ms 200
      {| body_members :=
           map (fun m => {| mr_memberId := memberId m; mr_status := "success" |})
               chunk |}.

Definition w0 : world := {| clock := 0; trace := []; draws := 0 |}.

(** A bulk-add reply that takes [ms] milliseconds, has status [code] and
    reports every member of the chunk with status [st]. *)
Definition reply_all (ms : Z) (code : Z) (st : string)
  (chunk : list group_member) : reply bulk_body :=
  resolved ms code
    {| body_members :=
         map (fun m => {| mr_memberId := memberId m; mr_status := st |}) chunk |}.

(** A bulk-add service that answers its calls from a script, by the
    number of exchanges made before the call, and as [default] when the
    script is over. *)
Definition bulk_script
  (replies : list (list group_member -> reply bulk_body))
  (default : list group_member -> reply bulk_body)
  : list exchange -> string -> string -> list group_member -> reply bulk_body :=
  fun history _ _ chunk => nth (length history) replies default chunk.

(** [n] members to add. *)
Definition test_members (n : nat) : list group_member :=
  map (fun k => {| memberId := toString k; membershipType := "user" |})
      (seq 0 n).

Arguments maxPageSize : simpl never.
Arguments chunkSize : simpl never.

(** * Properties *)

(** The exchanges made between two worlds of one run. *)
Definition issued (w w' : world) : list exchange :=
  skipn (length (trace w)) (trace w').

Lemma issued_app w w' xs : trace w' = trace w ++ xs -> issued w w' = xs.
Proof.
  unfold issued; intros ->.
  rewrite skipn_app, skipn_all, Nat.sub_diag; reflexivity.
Qed.

Lemma issued_refl w : issued w w = [].
Proof. apply issued_app; now rewrite app_nil_r. Qed.

(** ** The directory reader *)

Section DirectoryReader.

Variable env : environment.

(** The world after a page has been awaited. *)
Definition after_page (accessToken : string) (page pageSize : nat) (w : world)
  : world :=
  let r := members_api env (trace w) accessToken page pageSize in
  {| clock := (clock w + took r)%Z;
     trace := trace w ++ [GetMembers accessToken page pageSize r];
     draws := draws w |}.

Lemma getMembers_eq page pageSize accessToken w :
  getMembers env page pageSize accessToken w =
  match answered (members_api env (trace w) accessToken page pageSize) with
  | Rejected reason =>
      (Throw (AxiosError reason), after_page accessToken page pageSize w)
  | Resolved resp => (Ok (data resp), after_page accessToken page pageSize w)
  end.
Proof.
  unfold getMembers, bind, axios_get_members, await, ret, after_page.
  destruct (answered _); reflexivity.
Qed.

(** One iteration of the loop of [getNMembers]. *)
Lemma getNMembers_loop_step fuel n accessToken members page w :
  length members < n ->
  getNMembers_loop env (S fuel) n accessToken members page w =
  let diff := n - length members in
  let pageSize := if diff <=? maxPageSize then diff else maxPageSize in
  let page' := if diff <=? maxPageSize then page else page + 1 in
  match answered (members_api env (trace w) accessToken page pageSize) with
  | Rejected reason =>
      (Throw (AxiosError reason), after_page accessToken page pageSize w)
  | Resolved resp =>
      getNMembers_loop env fuel n accessToken (members ++ data resp) page'
        (snd (sleep 100 (after_page accessToken page pageSize w)))
  end.
Proof.
  intros Hlt. cbn [getNMembers_loop].
  apply Nat.ltb_lt in Hlt; rewrite Hlt. cbv zeta.
  destruct (n - length members <=? maxPageSize);
    unfold bind; rewrite getMembers_eq;
    destruct (answered _); reflexivity.
Qed.

Lemma getNMembers_loop_done fuel n accessToken members page w :
  n <= length members ->
  getNMembers_loop env fuel n accessToken members page w = (Ok members, w).
Proof.
  intros Hle. apply Nat.ltb_ge in Hle.
  destruct fuel; cbn [getNMembers_loop]; rewrite Hle; reflexivity.
Qed.

Lemma getNMembers_loop_out n accessToken members page w :
  length members < n ->
  getNMembers_loop env 0 n accessToken members page w = (OutOfFuel, w).
Proof.
  intros Hlt. apply Nat.ltb_lt in Hlt.
  cbn [getNMembers_loop]; rewrite Hlt; reflexivity.
Qed.

(** A request for a page of the directory with a page size within the
    cap. *)
Definition capped_page_request (accessToken : string) (x : exchange) : Prop :=
  exists page perPage r,
    x = GetMembers accessToken page perPage r /\ 1 <= perPage <= maxPageSize.

Lemma getNMembers_loop_requests fuel n accessToken :
  forall members page w,
  exists xs,
    trace (snd (getNMembers_loop env fuel n accessToken members page w))
    = trace w ++ xs
    /\ Forall (capped_page_request accessToken) xs.
Proof.
  induction fuel as [|fuel IH]; intros members page w.
  - exists []. rewrite app_nil_r. split; [|constructor].
    destruct (Nat.lt_ge_cases (length members) n).
    + now rewrite getNMembers_loop_out.
    + now rewrite getNMembers_loop_done.
  - destruct (Nat.lt_ge_cases (length members) n) as [Hlt|Hge].
    2:{ exists []. rewrite app_nil_r, getNMembers_loop_done by assumption.
        split; [reflexivity|constructor]. }
    rewrite getNMembers_loop_step by assumption. cbv zeta.
    set (diff := n - length members).
    set (pageSize := if diff <=? maxPageSize then diff else maxPageSize).
    assert (Hsize : 1 <= pageSize <= maxPageSize).
    { subst pageSize. destruct (Nat.leb_spec diff maxPageSize);
        subst diff; unfold maxPageSize in *; lia. }
    set (r := members_api env (trace w) accessToken page pageSize).
    assert (Hreq : capped_page_request accessToken
                     (GetMembers accessToken page pageSize r)).
    { exists page, pageSize, r. split; [reflexivity|exact Hsize]. }
    destruct (answered r) as [reason|resp].
    + exists [GetMembers accessToken page pageSize r].
      split; [reflexivity|]. constructor; [exact Hreq|constructor].
    + match goal with
      | |- context [getNMembers_loop env fuel n accessToken ?ms ?p ?w1] =>
          destruct (IH ms p w1) as [xs [Htr Hall]]
      end.
      exists (GetMembers accessToken page pageSize r :: xs).
      split; [|constructor; assumption].
      rewrite Htr. cbn [sleep snd trace after_page].
      fold r. now rewrite <- app_assoc.
Qed.

End DirectoryReader.

(** ** Paginated fetch: page sizes, count, termination *)

(** C8. Whatever the directory answers and however long the loop runs,
    the exchanges [getNMembers] makes are all page requests of the
    directory, and each of them asks for at least 1 and at most 100 records
    ([perPage <= maxPageSize = 100]), the last, partial one included. *)
Theorem getNMembers_perPage_capped :
  forall env fuel n accessToken w,
    Forall (capped_page_request accessToken)
           (issued w (snd (getNMembers env fuel n accessToken w))).
Proof.
  intros env fuel n accessToken w. unfold getNMembers.
  destruct (getNMembers_loop_requests env fuel n accessToken [] 1 w)
    as [xs [Htr Hall]].
  now rewrite (issued_app _ _ _ Htr).
Qed.

(** Every page request is answered with exactly [perPage] records. *)
Definition exact_pages (env : environment) : Prop :=
  forall history accessToken page perPage,
  exists resp,
    answered (members_api env history accessToken page perPage) = Resolved resp
    /\ length (data resp) = perPage.

(** [ceil(d / 100)], the number of requests of at most 100 items that [d]
    items need. *)
Definition ceil_div_100 (d : nat) : nat := (d + 99) / 100.


Lemma ceil_div_100_step d : 100 < d -> ceil_div_100 d = S (ceil_div_100 (d - 100)).
Proof.
  unfold ceil_div_100. intros H.
  replace (d + 99) with (d - 100 + 99 + 1 * 100) by lia.
  rewrite Nat.div_add by lia. lia.
Qed.



Lemma full_pages_exact patch bulk size :
  exact_pages (env_with full_pages patch bulk size).
Proof.
  intros history accessToken page perPage. eexists. split; [reflexivity|].
  cbn [data]. apply repeat_length.
Qed.


(** Every page request is answered with an empty page. *)
Definition empty_pages (env : environment) : Prop :=
  forall history accessToken page perPage,
  exists resp,
    answered (members_api env history accessToken page perPage) = Resolved resp
    /\ data resp = [].



Lemma getNMembers_loop_diverges env n accessToken :
  empty_pages env ->
  forall fuel members page w,
    length members < n ->
    fst (getNMembers_loop env fuel n accessToken members page w) = OutOfFuel.
Proof.
  intros Hempty.
  induction fuel as [|fuel IH]; intros members page w Hlt.
  - now rewrite getNMembers_loop_out.
  - rewrite getNMembers_loop_step by assumption. cbv zeta.
    match goal with
    | |- context [answered (members_api env ?h ?t ?p ?k)] =>
        destruct (Hempty h t p k) as [resp [-> Hnil]]
    end.
    rewrite Hnil, app_nil_r. now apply IH.
Qed.



(** ** The bulk membership adder *)

(** The chunk of a bulk-add request, and the [members] array of its
    response (empty when the call was rejected). *)
Definition request_chunk (x : exchange) : list group_member :=
  match x with
  | PostMembers _ _ chunk _ => chunk
  | _ => []
  end.

Definition response_members (x : exchange) : list member_result :=
  match x with
  | PostMembers _ _ _ r =>
      match answered r with
      | Resolved resp => body_members (data resp)
      | Rejected _ => []
      end
  | _ => []
  end.

(** What the body of the loop makes of a reply: the error it throws, or
    the members it appends to [result]. *)
Definition check_reply (groupId : string) (r : reply bulk_body)
  : error + list member_result :=
  match answered r with
  | Rejected reason => inl (AxiosError reason)
  | Resolved resp =>
      if negb (status resp =? 200)%Z then
        inl (Error ("Failed to add bulk member to group " ++ groupId
                    ++ ": " ++ toString (data resp)))
      else if (took r >? 30000)%Z then
        inl (Error ("API call exceeds 30 seconds limit: "
                    ++ toString (took r) ++ " ms"))
      else if existsb is_failed (body_members (data resp)) then
        inl (Error ("Failed to add some members: "
                    ++ toString (filter is_failed (body_members (data resp)))))
      else inr (body_members (data resp))
  end.

Section BulkAdder.

Variable env : environment.
Variable groupId : string.
Variable members : list group_member.
Variable accessToken : string.

Definition chunk_reply (i : nat) (w : world) : reply bulk_body :=
  post_members env (trace w) accessToken groupId
    (slice members i (i + chunkSize)).

Definition chunk_exchange (i : nat) (w : world) : exchange :=
  PostMembers accessToken groupId (slice members i (i + chunkSize))
    (chunk_reply i w).

(** The world after the chunk at [i] has been awaited. *)
Definition after_chunk (i : nat) (w : world) : world :=
  {| clock := (clock w + took (chunk_reply i w))%Z;
     trace := trace w ++ [chunk_exchange i w];
     draws := draws w |}.

(** One iteration of the loop of [addMembers]. *)
Lemma addMembers_loop_step fuel i result w :
  i < length members ->
  addMembers_loop env (S fuel) groupId members accessToken i result w =
  match check_reply groupId (chunk_reply i w) with
  | inl e => (Throw e, result, after_chunk i w)
  | inr added =>
      addMembers_loop env fuel groupId members accessToken
        (i + chunkSize) (result ++ added) (after_chunk i w)
  end.
Proof.
  intros Hlt. cbn [addMembers_loop].
  apply Nat.ltb_lt in Hlt; rewrite Hlt. cbv zeta.
  unfold axios_post_members, await, check_reply. fold (chunk_reply i w).
  destruct (answered (chunk_reply i w)) as [reason|resp]; [reflexivity|].
  destruct (negb (status resp =? 200)%Z); [reflexivity|].
  cbn [clock].
  replace (clock w + took (chunk_reply i w) - clock w)%Z
    with (took (chunk_reply i w)) by lia.
  destruct (took (chunk_reply i w) >? 30000)%Z; [reflexivity|].
  destruct (existsb is_failed (body_members (data resp))); reflexivity.
Qed.

Lemma addMembers_loop_done fuel i result w :
  length members <= i ->
  addMembers_loop env fuel groupId members accessToken i result w
  = (Ok tt, result, w).
Proof.
  intros Hle. apply Nat.ltb_ge in Hle.
  destruct fuel; cbn [addMembers_loop]; rewrite Hle; reflexivity.
Qed.

(** The runs of the loop: from index [i] and array [result], the
    exchanges made, the outcome, and the array when the loop is left. *)
Inductive chunk_run
  : nat -> list member_result -> list exchange -> outcome unit ->
    list member_result -> Prop :=
| run_end i result :
    length members <= i ->
    chunk_run i result [] (Ok tt) result
| run_throw i result r e :
    i < length members ->
    check_reply groupId r = inl e ->
    chunk_run i result
      [PostMembers accessToken groupId (slice members i (i + chunkSize)) r]
      (Throw e) result
| run_next i result r added xs o result' :
    i < length members ->
    check_reply groupId r = inr added ->
    chunk_run (i + chunkSize) (result ++ added) xs o result' ->
    chunk_run i result
      (PostMembers accessToken groupId (slice members i (i + chunkSize)) r :: xs)
      o result'.

(** With [length members - i] iterations to spend, the loop makes one of
    these runs; in particular it does not run out. *)
Lemma addMembers_loop_run fuel :
  forall i result w,
    length members - i <= fuel ->
    exists xs o result' w',
      addMembers_loop env fuel groupId members accessToken i result w
      = (o, result', w')
      /\ trace w' = trace w ++ xs
      /\ chunk_run i result xs o result'.
Proof.
  induction fuel as [|fuel IH]; intros i result w Hfuel.
  - exists [], (Ok tt), result, w.
    rewrite addMembers_loop_done, app_nil_r by lia.
    repeat split. apply run_end; lia.
  - destruct (Nat.lt_ge_cases i (length members)) as [Hlt|Hge].
    2:{ exists [], (Ok tt), result, w.
        rewrite addMembers_loop_done, app_nil_r by lia.
        repeat split. now apply run_end. }
    rewrite addMembers_loop_step by assumption.
    destruct (check_reply groupId (chunk_reply i w)) as [e|added] eqn:Hcheck.
    + exists [chunk_exchange i w], (Throw e), result, (after_chunk i w).
      repeat split. now apply run_throw.
    + destruct (IH (i + chunkSize) (result ++ added) (after_chunk i w))
        as (xs & o & result' & w' & Hrun & Htr & Hshape).
      { unfold chunkSize. lia. }
      exists (chunk_exchange i w :: xs), o, result', w'.
      split; [exact Hrun|]. split.
      * rewrite Htr. cbn [after_chunk trace]. now rewrite <- app_assoc.
      * now apply run_next with (added := added).
Qed.

End BulkAdder.

(** *** What a reply leads to *)

Lemma check_reply_appends groupId r added :
  check_reply groupId r = inr added ->
  exists resp,
    answered r = Resolved resp
    /\ status resp = 200%Z
    /\ (took r <= 30000)%Z
    /\ existsb is_failed (body_members (data resp)) = false
    /\ added = body_members (data resp).
Proof.
  unfold check_reply. destruct (answered r) as [reason|resp]; [discriminate|].
  destruct (Z.eqb_spec (status resp) 200) as [Hst|Hst]; cbn [negb];
    [|discriminate].
  destruct (Z.gtb_spec (took r) 30000) as [Hgt|Hle]; [discriminate|].
  destruct (existsb is_failed (body_members (data resp))) eqn:Hex;
    [discriminate|].
  intros [= <-]. exists resp. repeat split; assumption.
Qed.

Lemma check_reply_non_200 groupId r resp :
  answered r = Resolved resp ->
  status resp <> 200%Z ->
  check_reply groupId r
  = inl (Error ("Failed to add bulk member to group " ++ groupId
                ++ ": " ++ toString (data resp))).
Proof.
  intros Hans Hst. unfold check_reply. rewrite Hans.
  apply Z.eqb_neq in Hst. now rewrite Hst.
Qed.

Lemma check_reply_over_budget groupId r :
  (took r > 30000)%Z ->
  exists e,
    check_reply groupId r = inl e
    /\ forall resp,
         answered r = Resolved resp -> status resp = 200%Z ->
         e = Error ("API call exceeds 30 seconds limit: "
                    ++ toString (took r) ++ " ms").
Proof.
  intros Hgt. unfold check_reply.
  destruct (answered r) as [reason|resp].
  - eexists. split; [reflexivity|discriminate].
  - destruct (Z.eqb_spec (status resp) 200) as [Hst|Hst]; cbn [negb].
    + destruct (Z.gtb_spec (took r) 30000) as [_|Hle]; [|lia].
      eexists. split; [reflexivity|]. now intros resp' [= <-] _.
    + eexists. split; [reflexivity|]. intros resp' [= <-] Hst'. contradiction.
Qed.



Lemma is_failed_status m : is_failed m = true <-> mr_status m = "failed".
Proof. unfold is_failed. apply String.eqb_eq. Qed.

Lemma no_failed_entries (l : list member_result) :
  existsb is_failed l = false ->
  Forall (fun m => mr_status m <> "failed") l.
Proof.
  intros Hex. apply Forall_forall. intros m Hin Hst.
  apply is_failed_status in Hst.
  assert (existsb is_failed l = true) by (apply existsb_exists; eauto).
  congruence.
Qed.

(** *** Runs that abort, runs that return *)

Section Runs.

Variable groupId : string.
Variable members : list group_member.
Variable accessToken : string.

(** A reply that the body of the loop turns into an error ends the run:
    its exchange is the last one, the error is the outcome, and [result]
    holds the members of the responses before it and nothing of it. *)
Lemma chunk_run_abort i result xs o result' :
  chunk_run groupId members accessToken i result xs o result' ->
  forall k accessToken' groupId' chunk r e,
    nth_error xs k = Some (PostMembers accessToken' groupId' chunk r) ->
    check_reply groupId r = inl e ->
    o = Throw e
    /\ length xs = S k
    /\ result' = result ++ concat (map response_members (firstn k xs)).
Proof.
  induction 1 as [i result Hend
                 |i result r0 e0 Hlt Hcheck0
                 |i result r0 added xs o result' Hlt Hcheck0 Hrun IH];
    intros k accessToken' groupId' chunk r e Hnth Hcheck.
  - destruct k; discriminate.
  - destruct k as [|k]; [|destruct k; discriminate].
    injection Hnth as _ <-. cbn [firstn map concat length].
    rewrite app_nil_r. split; [congruence|]. split; reflexivity.
  - destruct k as [|k].
    + injection Hnth as _ <-. congruence.
    + cbn [nth_error] in Hnth.
      destruct (IH _ _ _ _ _ _ Hnth Hcheck) as (Ho & Hlen & Hres).
      split; [exact Ho|]. split; [cbn [length]; now rewrite Hlen|].
      apply check_reply_appends in Hcheck0 as (resp & Hans & _ & _ & _ & ->).
      cbn [firstn map concat response_members]. rewrite Hans.
      now rewrite Hres, <- app_assoc.
Qed.

(** A response that the loop has accepted. *)
Definition accepted_response (x : exchange) : Prop :=
  exists chunk r resp,
    x = PostMembers accessToken groupId chunk r
    /\ answered r = Resolved resp
    /\ status resp = 200%Z
    /\ (took r <= 30000)%Z.

Lemma chunk_run_returns i result xs result' :
  chunk_run groupId members accessToken i result xs (Ok tt) result' ->
  result' = result ++ concat (map response_members xs)
  /\ Forall accepted_response xs
  /\ Forall (fun m => mr_status m <> "failed")
            (concat (map response_members xs)).
Proof.
  intros Hrun. remember (Ok tt) as o eqn:Ho.
  induction Hrun as [i result Hend
                    |i result r0 e0 Hlt Hcheck0
                    |i result r0 added xs o result' Hlt Hcheck0 Hrun IH].
  - cbn [map concat]. rewrite app_nil_r. repeat split; constructor.
  - discriminate.
  - destruct (IH Ho) as (Hres & Hacc & Hok).
    apply check_reply_appends in Hcheck0
      as (resp & Hans & Hst & Hle & Hno & ->).
    cbn [map concat response_members]. rewrite Hans.
    split; [now rewrite Hres, <- app_assoc|]. split.
    + constructor; [|exact Hacc].
      exists (slice members i (i + chunkSize)), r0, resp. repeat split; assumption.
    + apply Forall_app. split; [now apply no_failed_entries|exact Hok].
Qed.

End Runs.

(** The run of [addMembers] from a world: the exchanges it makes are
    those of a run of the loop from [i = 0] and [result = []]. *)
Lemma addMembers_run_spec env groupId members accessToken w :
  exists o result w',
    addMembers_run env groupId members accessToken w = (o, result, w')
    /\ chunk_run groupId members accessToken 0 [] (issued w w') o result.
Proof.
  unfold addMembers_run.
  destruct (addMembers_loop_run env groupId members accessToken
              (length members) 0 [] w)
    as (xs & o & result & w' & Hrun & Htr & Hshape); [lia|].
  exists o, result, w'. split; [exact Hrun|].
  now rewrite (issued_app _ _ _ Htr).
Qed.

Lemma addMembers_spec env groupId members accessToken w o w' :
  addMembers env groupId members accessToken w = (o, w') ->
  exists o' result,
    chunk_run groupId members accessToken 0 [] (issued w w') o' result
    /\ addMembers_run env groupId members accessToken w = (o', result, w')
    /\ o = match o' with
           | Ok _ => Ok result
           | Throw e => Throw e
           | OutOfFuel => OutOfFuel
           end.
Proof.
  unfold addMembers.
  destruct (addMembers_run_spec env groupId members accessToken w)
    as (o' & result & w1 & Hrun & Hshape).
  rewrite Hrun. intros Heq. exists o', result.
  destruct o'; injection Heq as <- <-; repeat split; assumption.
Qed.

(** *** The timing budget *)

(** C3. In a run of [addMembers], a chunk whose round trip is measured
    above 30000 ms raises an error (the timing error when the response has
    status 200 and so reaches the timing check), and its request is the
    last one of the run: no later chunk is requested. *)
Theorem addMembers_over_budget_aborts :
  forall env groupId members accessToken w o w',
    addMembers env groupId members accessToken w = (o, w') ->
    forall k accessToken' groupId' chunk r,
      nth_error (issued w w') k = Some (PostMembers accessToken' groupId' chunk r) ->
      (took r > 30000)%Z ->
      (exists e,
         o = Throw e
         /\ forall resp,
              answered r = Resolved resp -> status resp = 200%Z ->
              e = Error ("API call exceeds 30 seconds limit: "
                         ++ toString (took r) ++ " ms"))
      /\ length (issued w w') = S k.
Proof.
  intros env groupId members accessToken w o w' Hadd
         k accessToken' groupId' chunk r Hnth Hslow.
  apply addMembers_spec in Hadd as (o' & result & Hshape & _ & ->).
  destruct (check_reply_over_budget groupId r Hslow) as (e & Hcheck & Hmsg).
  destruct (chunk_run_abort _ _ _ _ _ _ _ _ Hshape _ _ _ _ _ _ Hnth Hcheck)
    as (-> & Hlen & _).
  split; [|exact Hlen]. exists e. split; [reflexivity|exact Hmsg].
Qed.

(** *** Responses with another status than 200 *)

(** C7. In a run of [addMembers], a bulk-add response whose status is not
    200 raises the error of the status check, its request is the last one
    of the run, and the array [result] holds, when the loop is left, the
    members of the responses before it and none of its own. *)
Theorem addMembers_non_200_aborts :
  forall env groupId members accessToken w o result w',
    addMembers_run env groupId members accessToken w = (o, result, w') ->
    forall k accessToken' groupId' chunk r resp,
      nth_error (issued w w') k = Some (PostMembers accessToken' groupId' chunk r) ->
      answered r = Resolved resp ->
      status resp <> 200%Z ->
      o = Throw (Error ("Failed to add bulk member to group " ++ groupId
                        ++ ": " ++ toString (data resp)))
      /\ fst (addMembers env groupId members accessToken w) = Throw
           (Error ("Failed to add bulk member to group " ++ groupId
                   ++ ": " ++ toString (data resp)))
      /\ length (issued w w') = S k
      /\ result = concat (map response_members (firstn k (issued w w'))).
Proof.
  intros env groupId members accessToken w o result w' Hrun
         k accessToken' groupId' chunk r resp Hnth Hans Hst.
  destruct (addMembers_run_spec env groupId members accessToken w)
    as (o1 & result1 & w1 & Hrun1 & Hshape).
  rewrite Hrun in Hrun1. injection Hrun1 as <- <- <-.
  pose proof (check_reply_non_200 groupId r resp Hans Hst) as Hcheck.
  destruct (chunk_run_abort _ _ _ _ _ _ _ _ Hshape _ _ _ _ _ _ Hnth Hcheck)
    as (-> & Hlen & Hres).
  unfold addMembers. rewrite Hrun. repeat split; assumption.
Qed.

(** *** Normal returns *)

(** C10. When [addMembers] returns, the list it returns is the
    concatenation, in the order of the chunks, of the [members] arrays of
    the responses to all the requests it made; each of these responses was
    resolved with status 200 within the budget, and no entry of the
    returned list has status ["failed"]. *)
Theorem addMembers_returns_all_responses :
  forall env groupId members accessToken w result w',
    addMembers env groupId members accessToken w = (Ok result, w') ->
    result = concat (map response_members (issued w w'))
    /\ Forall (accepted_response groupId accessToken) (issued w w')
    /\ Forall (fun m => mr_status m <> "failed") result.
Proof.
  intros env groupId members accessToken w result w' Hadd.
  apply addMembers_spec in Hadd as (o' & result1 & Hshape & _ & Ho).
  destruct o' as [[]|e|]; try discriminate. injection Ho as ->.
  apply chunk_run_returns in Hshape as (Hres & Hacc & Hok).
  cbn [app] in Hres. subst result1. repeat split; assumption.
Qed.

(** *** Runs on concrete services *)

(** Three chunks; the second response takes 31 seconds. *)
Definition env_slow_second : environment :=
  env_with full_pages patch_ok
    (bulk_script [reply_all 10 200 "success"; reply_all 31000 200 "success"]
                 (reply_all 10 200 "success"))
    0.

(** Three chunks; the second response has status 202. *)
Definition env_202_second : environment :=
  env_with full_pages patch_ok
    (bulk_script [reply_all 10 200 "success"; reply_all 10 202 "success"]
                 (reply_all 10 200 "success"))
    0.

Lemma addMembers_over_budget_aborts_witness :
  (exists e,
     fst (addMembers env_slow_second "g1" (test_members 250) "token" w0) = Throw e
     /\ forall resp,
          answered (reply_all 31000 200 "success"
                      (slice (test_members 250) 100 200)) = Resolved resp ->
          status resp = 200%Z ->
          e = Error ("API call exceeds 30 seconds limit: "
                     ++ toString 31000%Z ++ " ms"))
  /\ length (issued w0
               (snd (addMembers env_slow_second "g1" (test_members 250)
                       "token" w0))) = 2.
Proof.
  apply (addMembers_over_budget_aborts
           env_slow_second "g1" (test_members 250) "token" w0
           (fst (addMembers env_slow_second "g1" (test_members 250) "token" w0))
           (snd (addMembers env_slow_second "g1" (test_members 250) "token" w0))
           (surjective_pairing _)
           1 "token" "g1" (slice (test_members 250) 100 200)
           (reply_all 31000 200 "success" (slice (test_members 250) 100 200))).
  - vm_compute. reflexivity.
  - vm_compute. reflexivity.
Defined.

Lemma addMembers_non_200_aborts_witness :
  fst (fst (addMembers_run env_202_second "g1" (test_members 250) "token" w0))
  = Throw (Error "Failed to add bulk member to group g1: [object Object]")
  /\ fst (addMembers env_202_second "g1" (test_members 250) "token" w0)
     = Throw (Error "Failed to add bulk member to group g1: [object Object]")
  /\ length (issued w0
               (snd (addMembers_run env_202_second "g1" (test_members 250)
                       "token" w0))) = 2
  /\ snd (fst (addMembers_run env_202_second "g1" (test_members 250) "token" w0))
     = concat (map response_members
                 (firstn 1 (issued w0
                    (snd (addMembers_run env_202_second "g1" (test_members 250)
                            "token" w0))))).
Proof.
  apply (addMembers_non_200_aborts
           env_202_second "g1" (test_members 250) "token" w0
           (fst (fst (addMembers_run env_202_second "g1" (test_members 250)
                        "token" w0)))
           (snd (fst (addMembers_run env_202_second "g1" (test_members 250)
                        "token" w0)))
           (snd (addMembers_run env_202_second "g1" (test_members 250)
                   "token" w0))
           ltac:(vm_compute; reflexivity)
           1 "token" "g1" (slice (test_members 250) 100 200)
           (reply_all 10 202 "success" (slice (test_members 250) 100 200))
           {| status := 202;
              data := {| body_members :=
                           map (fun m => {| mr_memberId := memberId m;
                                            mr_status := "success" |})
                               (slice (test_members 250) 100 200) |} |}).
  - vm_compute. reflexivity.
  - reflexivity.
  - discriminate.
Defined.

Lemma addMembers_returns_all_responses_witness :
  exists result w',
    addMembers (env_with full_pages patch_ok (bulk_success 10) 0)
      "g1" (test_members 250) "token" w0 = (Ok result, w')
    /\ length result = 250
    /\ result = concat (map response_members (issued w0 w'))
    /\ Forall (fun m => mr_status m <> "failed") result.
Proof.
  eexists. eexists. split; [vm_compute; reflexivity|].
  split; [vm_compute; reflexivity|].
  match goal with
  | |- ?res = concat (map response_members (issued w0 ?w1)) /\ _ =>
      destruct (addMembers_returns_all_responses
                  (env_with full_pages patch_ok (bulk_success 10) 0)
                  "g1" (test_members 250) "token" w0 res w1
                  ltac:(vm_compute; reflexivity))
        as (Hres & _ & Hok)
  end.
  split; assumption.
Defined.

(** *** Failed entries *)








(** *** Chunking *)

Lemma ceil_div_100_pos d : 1 <= d -> ceil_div_100 d = S (ceil_div_100 (d - 100)).
Proof.
  intros Hpos. destruct (Nat.lt_ge_cases 100 d) as [Hbig|Hsmall].
  - now apply ceil_div_100_step.
  - replace (d - 100) with 0 by lia.
    change (ceil_div_100 0) with 0. unfold ceil_div_100.
    symmetry. apply Nat.div_unique with (r := d - 1); lia.
Qed.

Lemma firstn_add {A} (a b : nat) (l : list A) :
  firstn (a + b) l = firstn a l ++ firstn b (skipn a l).
Proof.
  revert l. induction a as [|a IH]; intros l; [reflexivity|].
  destruct l as [|x l]; cbn [Nat.add firstn skipn app].
  - now rewrite firstn_nil.
  - now rewrite IH.
Qed.

Lemma slice_chunk {A} (l : list A) (i : nat) :
  slice l i (i + chunkSize) = firstn chunkSize (skipn i l).
Proof. unfold slice. f_equal. lia. Qed.

Lemma slice_chunk_length {A} (l : list A) (i : nat) :
  i < length l ->
  1 <= length (slice l i (i + chunkSize)) <= chunkSize.
Proof.
  intros Hlt. rewrite slice_chunk, length_firstn, length_skipn.
  unfold chunkSize. lia.
Qed.

(** The chunks of the requests of a run are the slices
    [[i, i + 100)], [[i + 100, i + 200)], ... of [members], as far as the
    run goes; a run that returns has gone through all of them. *)
Lemma chunk_run_chunks groupId members accessToken i result xs o result' :
  chunk_run groupId members accessToken i result xs o result' ->
  Forall (fun c => 1 <= length c <= chunkSize) (map request_chunk xs)
  /\ concat (map request_chunk xs)
     = firstn (length xs * chunkSize) (skipn i members)
  /\ length xs <= ceil_div_100 (length members - i)
  /\ (o = Ok tt ->
      length xs = ceil_div_100 (length members - i)
      /\ concat (map request_chunk xs) = skipn i members).
Proof.
  induction 1 as [i result Hend
                 |i result r0 e0 Hlt Hcheck0
                 |i result r0 added xs o result' Hlt Hcheck0 Hrun IH].
  - cbn [map concat length Nat.mul firstn].
    replace (length members - i) with 0 by lia.
    rewrite skipn_all2 by assumption.
    repeat split; constructor.
  - cbn [map concat length request_chunk].
    rewrite app_nil_r, Nat.mul_1_l, <- slice_chunk.
    rewrite ceil_div_100_pos by lia.
    split; [constructor; [now apply slice_chunk_length|constructor]|].
    split; [reflexivity|]. split; [lia|discriminate].
  - destruct IH as (Hsizes & Hcat & Hcount & Hall).
    cbn [map concat length request_chunk].
    rewrite (ceil_div_100_pos (length members - i)) by lia.
    replace (length members - i - 100) with (length members - (i + chunkSize))
      by (unfold chunkSize; lia).
    split; [constructor; [now apply slice_chunk_length|exact Hsizes]|].
    split; [|split; [lia|]].
    + rewrite Hcat, slice_chunk.
      replace (S (length xs) * chunkSize) with (chunkSize + length xs * chunkSize)
        by lia.
      rewrite firstn_add, skipn_skipn, (Nat.add_comm chunkSize i). reflexivity.
    + intros Ho. destruct (Hall Ho) as [Hlen Hcover].
      split; [now rewrite Hlen|].
      rewrite Hcover, slice_chunk, (Nat.add_comm i chunkSize), <- skipn_skipn.
      apply firstn_skipn.
Qed.

(** The bulk-add requests of [addMembers] for a group and a token. *)
Definition bulk_request (accessToken groupId : string) (x : exchange) : Prop :=
  exists chunk r, x = PostMembers accessToken groupId chunk r.

Lemma chunk_run_requests groupId members accessToken i result xs o result' :
  chunk_run groupId members accessToken i result xs o result' ->
  Forall (bulk_request accessToken groupId) xs.
Proof.
  induction 1; repeat constructor; try assumption; eexists _, _; reflexivity.
Qed.

(** C5, as the code has it.  For a list of [M] members, the exchanges of
    [addMembers] are bulk-add requests, one per chunk and in order, of the
    chunks [[0, 100)], [[100, 200)], ... of the list, each of at least 1 and
    at most 100 members, as long as no chunk raises an error: the chunks
    requested are a prefix of the list without overlap or omission, and
    there are at most [ceil(M/100)] of them.  When [addMembers] returns,
    there are exactly [ceil(M/100)] and they cover the whole list. *)
Theorem addMembers_chunking :
  forall env groupId members accessToken w,
    Forall (bulk_request accessToken groupId)
           (issued w (snd (addMembers env groupId members accessToken w)))
    /\ Forall (fun c => 1 <= length c <= 100)
              (map request_chunk
                 (issued w (snd (addMembers env groupId members accessToken w))))
    /\ concat (map request_chunk
                 (issued w (snd (addMembers env groupId members accessToken w))))
       = firstn
           (length (issued w (snd (addMembers env groupId members accessToken w)))
            * 100)
           members
    /\ length (issued w (snd (addMembers env groupId members accessToken w)))
       <= ceil_div_100 (length members)
    /\ (forall result,
          fst (addMembers env groupId members accessToken w) = Ok result ->
          length (issued w (snd (addMembers env groupId members accessToken w)))
          = ceil_div_100 (length members)
          /\ concat (map request_chunk
                       (issued w
                          (snd (addMembers env groupId members accessToken w))))
             = members).
Proof.
  intros env groupId members accessToken w.
  destruct (addMembers env groupId members accessToken w) as [o w'] eqn:Hadd.
  apply addMembers_spec in Hadd as (o' & result1 & Hshape & _ & Ho).
  cbn [fst snd].
  pose proof (chunk_run_requests _ _ _ _ _ _ _ _ Hshape) as Hreqs.
  apply chunk_run_chunks in Hshape as (Hsizes & Hcat & Hcount & Hall).
  rewrite Nat.sub_0_r in *. cbn [skipn] in *.
  split; [exact Hreqs|]. split; [exact Hsizes|].
  split; [exact Hcat|]. split; [exact Hcount|].
  intros result Hok. subst o.
  destruct o' as [[]|e|]; try discriminate.
  exact (Hall eq_refl).
Qed.

(** [ceil_div_100] is the ceiling of the division by 100. *)
Lemma ceil_div_100_spec d : 100 * (ceil_div_100 d - 1) < d <= 100 * ceil_div_100 d \/ d = 0.
Proof.
  destruct d as [|d]; [now right|left].
  unfold ceil_div_100.
  pose proof (Nat.div_mod_eq (S d + 99) 100).
  pose proof (Nat.mod_upper_bound (S d + 99) 100).
  lia.
Qed.

(** 101 members and a service that rejects the first call: one request
    is made, where [ceil(101/100) = 2]. *)
Definition env_rejecting : environment :=
  env_with full_pages patch_ok
    (bulk_script [] (fun _ => rejected 15 "connect ECONNREFUSED")) 0.

Lemma addMembers_rejected_first_chunk :
  length (test_members 101) = 101
  /\ ceil_div_100 101 = 2
  /\ fst (addMembers env_rejecting "g1" (test_members 101) "token" w0)
     = Throw (AxiosError "connect ECONNREFUSED")
  /\ length (issued w0
               (snd (addMembers env_rejecting "g1" (test_members 101)
                       "token" w0))) = 1
  /\ concat (map request_chunk
               (issued w0
                  (snd (addMembers env_rejecting "g1" (test_members 101)
                          "token" w0))))
     <> test_members 101.
Proof.
  repeat split; try (vm_compute; reflexivity).
  intros Heq. apply (f_equal (@length group_member)) in Heq.
  vm_compute in Heq. discriminate.
Qed.

Lemma addMembers_chunking_witness :
  length (issued w0
            (snd (addMembers (env_with full_pages patch_ok (bulk_success 10) 0)
                    "g1" (test_members 250) "token" w0))) = 3
  /\ concat (map request_chunk
               (issued w0
                  (snd (addMembers
                          (env_with full_pages patch_ok (bulk_success 10) 0)
                          "g1" (test_members 250) "token" w0))))
     = test_members 250.
Proof.
  destruct (addMembers_chunking
              (env_with full_pages patch_ok (bulk_success 10) 0)
              "g1" (test_members 250) "token" w0)
    as (_ & _ & _ & _ & Hall).
  destruct (addMembers (env_with full_pages patch_ok (bulk_success 10) 0)
              "g1" (test_members 250) "token" w0) as [o w'] eqn:Hadd.
  assert (Hok : exists result, o = Ok result).
  { vm_compute in Hadd. injection Hadd as <- _. eexists. reflexivity. }
  destruct Hok as [result ->].
  destruct (Hall result eq_refl) as [Hlen Hcover].
  split; [exact Hlen|exact Hcover].
Defined.

(** ** The life of the test group *)

Lemma chunk_run_outcome groupId members accessToken i result xs o result' :
  chunk_run groupId members accessToken i result xs o result' ->
  o <> OutOfFuel.
Proof. induction 1; [discriminate|discriminate|assumption]. Qed.

(** [addMembers] returns or throws: its loop is bounded by the list. *)
Lemma addMembers_total env groupId members accessToken w :
  fst (addMembers env groupId members accessToken w) <> OutOfFuel.
Proof.
  destruct (addMembers env groupId members accessToken w) as [o w'] eqn:Hadd.
  apply addMembers_spec in Hadd as (o' & result & Hshape & _ & ->).
  apply chunk_run_outcome in Hshape.
  destruct o'; cbn [fst]; congruence.
Qed.

(** The world after the deletion of a group has been awaited. *)
Definition after_delete (env : environment) (groupId accessToken : string)
  (w : world) : world :=
  {| clock := (clock w + took (delete_group env (trace w) accessToken groupId))%Z;
     trace := trace w ++ [DeleteGroup accessToken groupId
                            (delete_group env (trace w) accessToken groupId)];
     draws := draws w |}.

Lemma deleteTestGroup_request env groupId accessToken w :
  snd (deleteTestGroup env groupId accessToken w)
  = after_delete env groupId accessToken w.
Proof.
  unfold deleteTestGroup, bind, axios_delete_group, await, after_delete.
  destruct (answered _) as [reason|resp]; [reflexivity|].
  destruct (negb (status resp =? 200)%Z); reflexivity.
Qed.

Lemma deleteTestGroup_ok env groupId accessToken w resp :
  answered (delete_group env (trace w) accessToken groupId) = Resolved resp ->
  status resp = 200%Z ->
  fst (deleteTestGroup env groupId accessToken w) = Ok (data resp).
Proof.
  intros Hans Hst.
  unfold deleteTestGroup, bind, axios_delete_group, await.
  rewrite Hans, Hst. reflexivity.
Qed.

Lemma deleteTestGroup_total env groupId accessToken w :
  fst (deleteTestGroup env groupId accessToken w) <> OutOfFuel.
Proof.
  unfold deleteTestGroup, bind, axios_delete_group, await.
  destruct (answered _) as [reason|resp]; [discriminate|].
  destruct (negb (status resp =? 200)%Z); discriminate.
Qed.

(** C6. In [main], once [createTestGroup] has returned a group id,
    whatever [addMembers] does next (it returns, or it throws any error),
    the next and last exchange of the script is the deletion request of
    [deleteTestGroup] for that group id.  When [addMembers] threw, [main]
    throws as well: the error of [addMembers] when the deletion is answered
    with status 200. *)
Theorem main_deletes_group_after_addMembers :
  forall env w accessToken w1 members w2 w3 groupId w4 o w5,
    falsy (AUTH0_CLIENT_ID env) = false ->
    falsy (AUTH0_CLIENT_SECRET env) = false ->
    getM2Mtoken env w = (Ok accessToken, w1) ->
    random_members env (INITIAL_MEMBER_SIZE env) [] w1 = (Ok members, w2) ->
    groupApiHealthCheck env accessToken w2 = (Ok tt, w3) ->
    createTestGroup env accessToken w3 = (Ok groupId, w4) ->
    addMembers env groupId (map to_group_member members) accessToken w4
    = (o, w5) ->
    issued w5 (snd (main env w))
    = [DeleteGroup accessToken groupId
         (delete_group env (trace w5) accessToken groupId)]
    /\ forall e,
         o = Throw e ->
         (exists e', fst (main env w) = Throw e')
         /\ forall resp,
              answered (delete_group env (trace w5) accessToken groupId)
              = Resolved resp ->
              status resp = 200%Z ->
              fst (main env w) = Throw e.
Proof.
  intros env w accessToken w1 members w2 w3 groupId w4 o w5
         Hid Hsecret Htoken Hmembers Hhealth Hcreate Hadd.
  pose proof (addMembers_total env groupId (map to_group_member members)
                accessToken w4) as Htotal.
  pose proof (deleteTestGroup_request env groupId accessToken w5) as Hdel.
  pose proof (deleteTestGroup_total env groupId accessToken w5) as Hdtotal.
  assert (Hmain :
    main env w =
    match o with
    | OutOfFuel => (OutOfFuel, w5)
    | _ =>
        match deleteTestGroup env groupId accessToken w5 with
        | (Ok _, w6) =>
            (match o with Ok _ => Ok tt | Throw e => Throw e
                        | OutOfFuel => OutOfFuel end, w6)
        | (Throw e, w6) => (Throw e, w6)
        | (OutOfFuel, w6) => (OutOfFuel, w6)
        end
    end).
  { unfold main. rewrite Hid, Hsecret. unfold bind at 1. rewrite Htoken.
    unfold bind at 1. rewrite Hmembers.
    unfold bind at 1. rewrite Hhealth.
    unfold bind at 1. rewrite Hcreate.
    unfold try_finally, bind, getTime, ret. rewrite Hadd.
    destruct o as [result|e|]; try reflexivity. }
  rewrite Hadd in Htotal. cbn [fst] in Htotal.
  rewrite Hmain.
  destruct (deleteTestGroup env groupId accessToken w5) as [od w6] eqn:Hd.
  cbn [fst snd] in Hdel, Hdtotal. subst w6.
  assert (Htrace : forall (out : outcome unit),
             issued w5 (snd (out, after_delete env groupId accessToken w5))
             = [DeleteGroup accessToken groupId
                  (delete_group env (trace w5) accessToken groupId)]).
  { intros out. apply issued_app. reflexivity. }
  split.
  - destruct o as [result|e|]; [| |congruence];
      destruct od as [g|e'|]; try congruence; apply Htrace.
  - intros e ->. split.
    + destruct od as [g|e'|]; [eexists; reflexivity|eexists; reflexivity|congruence].
    + intros resp Hans Hst.
      pose proof (deleteTestGroup_ok env groupId accessToken w5 resp Hans Hst)
        as Hok.
      rewrite Hd in Hok. cbn [fst] in Hok. subst od. reflexivity.
Qed.

(** A run of [main] with 150 members in which the response to the second
    chunk takes 31 seconds (the bulk-add calls are the fifth and sixth
    exchanges of the script). *)
Definition env_main_slow : environment :=
  env_with full_pages patch_ok
    (bulk_script
       [reply_all 10 200 "success"; reply_all 10 200 "success";
        reply_all 10 200 "success"; reply_all 10 200 "success";
        reply_all 10 200 "success"; reply_all 31000 200 "success"]
       (reply_all 10 200 "success"))
    150.

Lemma main_deletes_group_after_addMembers_witness :
  exists w5,
    length (trace w5) = 6
    /\ issued w5 (snd (main env_main_slow w0))
       = [DeleteGroup "token" "g1" (resolved 30 200 {| id := "g1" |})]
    /\ fst (main env_main_slow w0)
       = Throw (Error "API call exceeds 30 seconds limit: 31000 ms").
Proof.
  destruct (main_deletes_group_after_addMembers env_main_slow w0
              "token"
              (snd (getM2Mtoken env_main_slow w0))
              (map (fun k => {| userId := toString (10000000 + Z.of_nat k)%Z |})
                   (seq 0 150))
              (snd (random_members env_main_slow 150 []
                      (snd (getM2Mtoken env_main_slow w0))))
              (snd (groupApiHealthCheck env_main_slow "token"
                      (snd (random_members env_main_slow 150 []
                              (snd (getM2Mtoken env_main_slow w0))))))
              "g1"
              (snd (createTestGroup env_main_slow "token"
                      (snd (groupApiHealthCheck env_main_slow "token"
                              (snd (random_members env_main_slow 150 []
                                      (snd (getM2Mtoken env_main_slow w0))))))))
              (Throw (Error "API call exceeds 30 seconds limit: 31000 ms"))
              (snd (addMembers env_main_slow "g1"
                      (map to_group_member
                         (map (fun k =>
                                 {| userId := toString (10000000 + Z.of_nat k)%Z |})
                              (seq 0 150)))
                      "token"
                      (snd (createTestGroup env_main_slow "token"
                              (snd (groupApiHealthCheck env_main_slow "token"
                                      (snd (random_members env_main_slow 150 []
                                              (snd (getM2Mtoken env_main_slow
                                                      w0))))))))))
              ltac:(reflexivity) ltac:(reflexivity)
              ltac:(vm_compute; reflexivity) ltac:(vm_compute; reflexivity)
              ltac:(vm_compute; reflexivity) ltac:(vm_compute; reflexivity)
              ltac:(vm_compute; reflexivity))
    as [Hlast Hthrow].
  eexists. split; [|split; [exact Hlast|]].
  - vm_compute. reflexivity.
  - destruct (Hthrow _ eq_refl) as [_ Hsame].
    apply (Hsame {| status := 200; data := {| id := "g1" |} |});
      vm_compute; reflexivity.
Defined.

(** *** A group that is created and not deleted *)

Definition is_delete_request (x : exchange) : bool :=
  match x with
  | DeleteGroup _ _ _ => true
  | _ => false
  end.

(** When [createTestGroup] throws, [main] throws the same error there and
    then: the [try] block, and with it the [finally] block, is not
    entered. *)
Lemma main_stops_when_createTestGroup_throws
  env w accessToken w1 members w2 w3 e w4 :
  falsy (AUTH0_CLIENT_ID env) = false ->
  falsy (AUTH0_CLIENT_SECRET env) = false ->
  getM2Mtoken env w = (Ok accessToken, w1) ->
  random_members env (INITIAL_MEMBER_SIZE env) [] w1 = (Ok members, w2) ->
  groupApiHealthCheck env accessToken w2 = (Ok tt, w3) ->
  createTestGroup env accessToken w3 = (Throw e, w4) ->
  main env w = (Throw e, w4).
Proof.
  intros Hid Hsecret Htoken Hmembers Hhealth Hcreate.
  unfold main. rewrite Hid, Hsecret. unfold bind at 1. rewrite Htoken.
  unfold bind at 1. rewrite Hmembers.
  unfold bind at 1. rewrite Hhealth.
  unfold bind at 1. rewrite Hcreate. reflexivity.
Qed.

(** The group endpoints create the group (the POST is answered with status
    200 and the id ["g1"]) and then fail the PATCH that sets [oldId]. *)
Definition patch_unavailable
  : list exchange -> string -> string -> string -> reply group :=
  fun _ _ _ _ => rejected 30 "Request failed with status code 503".

Definition env_patch_fails : environment :=
  env_with full_pages patch_unavailable (bulk_success 10) 3.

(** C1 fails on the code.  With the group created by a POST answered with
    status 200 and the PATCH of [oldId] rejected, [createTestGroup] throws
    before [main] enters its [try] block: the script ends by logging the
    error, its exchanges are the token, the health check, the POST and the
    PATCH, and no deletion of the group ["g1"] is ever requested. *)
Theorem main_leaks_group_when_patch_fails :
  fst (script env_patch_fails w0)
  = LogError (AxiosError "Request failed with status code 503")
  /\ trace (snd (script env_patch_fails w0))
     = [ GetToken (resolved 20 200 "token");
         GetHealth "token" (resolved 5 200 tt);
         PostGroup "token" "TestGroup-uuid-3" (resolved 30 200 {| id := "g1" |});
         PatchGroup "token" "g1" "uuid-4"
           (rejected 30 "Request failed with status code 503") ]
  /\ existsb is_delete_request (trace (snd (script env_patch_fails w0))) = false.
Proof. repeat split; vm_compute; reflexivity. Qed.

(** * Further properties *)

(** ** The directory reader, page by page *)

(** The page and page size of a page request, the records of its response
    (none when the call was rejected), and the time an exchange took. *)
Definition page_request (x : exchange) : nat * nat :=
  match x with
  | GetMembers _ page perPage _ => (page, perPage)
  | _ => (0, 0)
  end.

Definition page_records (x : exchange) : list member :=
  match x with
  | GetMembers _ _ _ r =>
      match answered r with
      | Resolved resp => data resp
      | Rejected _ => []
      end
  | _ => []
  end.

Definition exchange_took (x : exchange) : Z :=
  match x with
  | GetToken r => took r
  | GetMembers _ _ _ r => took r
  | GetHealth _ r => took r
  | PostGroup _ _ r => took r
  | PatchGroup _ _ _ r => took r
  | DeleteGroup _ _ r => took r
  | PostMembers _ _ _ r => took r
  end.

Definition total_took (xs : list exchange) : Z :=
  fold_right Z.add 0%Z (map exchange_took xs).

(** The size of the page asked for when [diff] records are missing. *)
Definition next_page_size (diff : nat) : nat :=
  if diff <=? maxPageSize then diff else maxPageSize.

(** The runs of the loop of [getNMembers n]: from the locals [members] and
    [page], the exchanges made and the outcome. *)
Inductive page_run (n : nat) (accessToken : string)
  : list member -> nat -> list exchange -> outcome (list member) -> Prop :=
| pages_done members page :
    n <= length members ->
    page_run n accessToken members page [] (Ok members)
| pages_out members page :
    length members < n ->
    page_run n accessToken members page [] OutOfFuel
| pages_rejected members page r reason :
    length members < n ->
    answered r = Rejected reason ->
    page_run n accessToken members page
      [GetMembers accessToken page (next_page_size (n - length members)) r]
      (Throw (AxiosError reason))
| pages_next members page r resp xs o :
    length members < n ->
    answered r = Resolved resp ->
    page_run n accessToken (members ++ data resp)
      (if n - length members <=? maxPageSize then page else page + 1) xs o ->
    page_run n accessToken members page
      (GetMembers accessToken page (next_page_size (n - length members)) r :: xs)
      o.

(** Every run of the loop is one of these; when it returns, the clock has
    advanced by the time of the exchanges and 100 ms of sleep after each. *)
Lemma getNMembers_loop_run env n accessToken fuel :
  forall members page w,
  exists xs o w',
    getNMembers_loop env fuel n accessToken members page w = (o, w')
    /\ trace w' = trace w ++ xs
    /\ page_run n accessToken members page xs o
    /\ (forall l, o = Ok l ->
        clock w' = (clock w + total_took xs + 100 * Z.of_nat (length xs))%Z).
Proof.
  induction fuel as [|fuel IH]; intros members page w.
  - exists [].
    destruct (Nat.lt_ge_cases (length members) n) as [Hlt|Hge].
    + exists OutOfFuel, w. rewrite getNMembers_loop_out, app_nil_r by assumption.
      repeat split; [now apply pages_out|discriminate].
    + exists (Ok members), w.
      rewrite getNMembers_loop_done, app_nil_r by assumption.
      repeat split; [now apply pages_done|].
      intros _ _. cbn. lia.
  - destruct (Nat.lt_ge_cases (length members) n) as [Hlt|Hge].
    2:{ exists [], (Ok members), w.
        rewrite getNMembers_loop_done, app_nil_r by assumption.
        repeat split; [now apply pages_done|].
        intros _ _. cbn. lia. }
    rewrite getNMembers_loop_step by assumption. cbv zeta.
    fold (next_page_size (n - length members)).
    set (size := next_page_size (n - length members)).
    set (r := members_api env (trace w) accessToken page size).
    destruct (answered r) as [reason|resp] eqn:Hans.
    + exists [GetMembers accessToken page size r], (Throw (AxiosError reason)),
        (after_page env accessToken page size w).
      repeat split; [now apply pages_rejected|discriminate].
    + match goal with
      | |- context [getNMembers_loop env fuel n accessToken ?ms ?p ?w1] =>
          destruct (IH ms p w1) as (xs & o & w' & Hrun & Htr & Hshape & Hclock)
      end.
      exists (GetMembers accessToken page size r :: xs), o, w'.
      split; [exact Hrun|]. split; [|split].
      * rewrite Htr. cbn [sleep snd trace after_page]. fold r.
        now rewrite <- app_assoc.
      * now apply pages_next with (resp := resp).
      * intros l Hl. rewrite (Hclock l Hl).
        cbn [sleep snd clock after_page]. fold r.
        unfold total_took. cbn [map fold_right exchange_took length].
        lia.
Qed.

Lemma getNMembers_run env fuel n accessToken w o w' :
  getNMembers env fuel n accessToken w = (o, w') ->
  page_run n accessToken [] 1 (issued w w') o
  /\ trace w' = trace w ++ issued w w'
  /\ (forall l, o = Ok l ->
      clock w' = (clock w + total_took (issued w w')
                  + 100 * Z.of_nat (length (issued w w')))%Z).
Proof.
  unfold getNMembers. intros Hget.
  destruct (getNMembers_loop_run env n accessToken fuel [] 1 w)
    as (xs & o1 & w1 & Hrun & Htr & Hshape & Hclock).
  rewrite Hget in Hrun. injection Hrun as <- <-.
  rewrite (issued_app _ _ _ Htr). repeat split; assumption.
Qed.

Lemma next_page_size_bounds diff :
  1 <= diff -> 1 <= next_page_size diff <= diff /\ next_page_size diff = min diff 100.
Proof.
  intros Hpos. unfold next_page_size, maxPageSize.
  destruct (Nat.leb_spec diff 100); lia.
Qed.

(** The reply of every page request is the one the directory gave to that
    request. *)
Definition page_reply_of (env : environment) (accessToken : string)
  (x : exchange) : Prop :=
  exists history page perPage,
    x = GetMembers accessToken page perPage
          (members_api env history accessToken page perPage).

Lemma getNMembers_loop_replies env n accessToken fuel :
  forall members page w,
  exists xs,
    trace (snd (getNMembers_loop env fuel n accessToken members page w))
    = trace w ++ xs
    /\ Forall (page_reply_of env accessToken) xs.
Proof.
  induction fuel as [|fuel IH]; intros members page w.
  - exists []. rewrite app_nil_r. split; [|constructor].
    destruct (Nat.lt_ge_cases (length members) n).
    + now rewrite getNMembers_loop_out.
    + now rewrite getNMembers_loop_done.
  - destruct (Nat.lt_ge_cases (length members) n) as [Hlt|Hge].
    2:{ exists []. rewrite app_nil_r, getNMembers_loop_done by assumption.
        split; [reflexivity|constructor]. }
    rewrite getNMembers_loop_step by assumption. cbv zeta.
    fold (next_page_size (n - length members)).
    set (size := next_page_size (n - length members)).
    assert (Hreq : page_reply_of env accessToken
                     (GetMembers accessToken page size
                        (members_api env (trace w) accessToken page size))).
    { now exists (trace w), page, size. }
    destruct (answered (members_api env (trace w) accessToken page size))
      as [reason|resp].
    + eexists. split; [reflexivity|]. constructor; [exact Hreq|constructor].
    + match goal with
      | |- context [getNMembers_loop env fuel n accessToken ?ms ?p ?w1] =>
          destruct (IH ms p w1) as [xs [Htr Hall]]
      end.
      eexists (_ :: xs). split; [|constructor; [exact Hreq|exact Hall]].
      rewrite Htr. cbn [sleep snd trace after_page].
      now rewrite <- app_assoc.
Qed.

Lemma getNMembers_replies env fuel n accessToken w :
  Forall (page_reply_of env accessToken)
         (issued w (snd (getNMembers env fuel n accessToken w))).
Proof.
  unfold getNMembers.
  destruct (getNMembers_loop_replies env n accessToken fuel [] 1 w)
    as [xs [Htr Hall]].
  now rewrite (issued_app _ _ _ Htr).
Qed.

Section PageRuns.

Variable n : nat.
Variable accessToken : string.

Lemma page_run_returns members page xs l :
  page_run n accessToken members page xs (Ok l) ->
  l = members ++ concat (map page_records xs) /\ n <= length l.
Proof.
  intros Hrun. remember (Ok l) as o eqn:Ho.
  induction Hrun as [members page Hge|members page Hlt
                    |members page r reason Hlt Hans
                    |members page r resp xs o Hlt Hans Hrun IH];
    try discriminate.
  - injection Ho as <-. cbn [map concat]. now rewrite app_nil_r.
  - destruct (IH Ho) as [Hl Hn]. split; [|exact Hn].
    cbn [map concat page_records]. rewrite Hans.
    now rewrite Hl, <- app_assoc.
Qed.

Lemma page_run_rejected members page xs o :
  page_run n accessToken members page xs o ->
  forall k accessToken' page' perPage r reason,
    nth_error xs k = Some (GetMembers accessToken' page' perPage r) ->
    answered r = Rejected reason ->
    o = Throw (AxiosError reason) /\ length xs = S k.
Proof.
  induction 1 as [members page Hge|members page Hlt
                 |members page r0 reason0 Hlt Hans0
                 |members page r0 resp0 xs o Hlt Hans0 Hrun IH];
    intros k accessToken' page' perPage r reason Hnth Hans.
  - destruct k; discriminate.
  - destruct k; discriminate.
  - destruct k as [|k]; [|destruct k; discriminate].
    injection Hnth as _ _ _ <-. split; [congruence|reflexivity].
  - destruct k as [|k].
    + injection Hnth as _ _ _ <-. congruence.
    + cbn [nth_error] in Hnth.
      destruct (IH _ _ _ _ _ _ Hnth Hans) as [Ho Hlen].
      split; [exact Ho|]. cbn [length]. now rewrite Hlen.
Qed.

(** When no response holds more records than its request asked for, a
    run that returns has taken exactly [n]. *)
Lemma page_run_bounded members page xs l :
  page_run n accessToken members page xs (Ok l) ->
  length members <= n ->
  Forall (fun x => length (page_records x) <= snd (page_request x)) xs ->
  length l = n.
Proof.
  intros Hrun. remember (Ok l) as o eqn:Ho. revert Ho.
  induction Hrun as [members page Hge|members page Hlt
                    |members page r reason Hlt Hans
                    |members page r resp xs o Hlt Hans Hrun IH];
    intros Ho Hle Hall; try discriminate.
  - injection Ho as <-. lia.
  - inversion Hall as [|x xs' Hhead Htail]; subst.
    cbn [page_records page_request snd] in Hhead. rewrite Hans in Hhead.
    apply IH; [reflexivity| |exact Htail].
    rewrite length_app.
    pose proof (next_page_size_bounds (n - length members)). lia.
Qed.

(** When every response holds exactly the records its request asked for,
    the requests of a run that returns are, from the page [page] on, full
    pages of 100 and a last page with what is left. *)
Lemma page_run_exact members page xs l :
  page_run n accessToken members page xs (Ok l) ->
  length members <= n ->
  Forall (fun x => length (page_records x) = snd (page_request x)) xs ->
  map page_request xs
  = map (fun k => (page + k, min 100 (n - length members - 100 * k)))
        (seq 0 (ceil_div_100 (n - length members))).
Proof.
  intros Hrun. remember (Ok l) as o eqn:Ho. revert Ho.
  induction Hrun as [members page Hge|members page Hlt
                    |members page r reason Hlt Hans
                    |members page r resp xs o Hlt Hans Hrun IH];
    intros Ho Hle Hall; try discriminate.
  - replace (n - length members) with 0 by lia. reflexivity.
  - inversion Hall as [|x xs' Hhead Htail]; subst.
    cbn [page_records page_request snd] in Hhead. rewrite Hans in Hhead.
    specialize (IH eq_refl).
    rewrite length_app, Hhead in IH.
    destruct (next_page_size_bounds (n - length members)) as [Hsize Hmin];
      [lia|].
    rewrite (ceil_div_100_pos (n - length members)) by lia.
    cbn [seq map page_request]. rewrite <- seq_shift, map_map.
    f_equal.
    + f_equal; lia.
    + rewrite IH by (assumption || lia).
      unfold next_page_size, maxPageSize in *.
      destruct (Nat.leb_spec (n - length members) 100) as [Hlast|Hmore].
      * replace (n - (length members + (n - length members))) with 0 by lia.
        replace (n - length members - 100) with 0 by lia. reflexivity.
      * replace (n - (length members + 100)) with (n - length members - 100)
          by lia.
        apply map_ext. intros k. f_equal; lia.
Qed.

End PageRuns.

(** *** The exact count, across page boundaries *)




(** *** Termination, and how it is lost *)




Section Iterations.

Variable env : environment.
Variable n : nat.
Variable accessToken : string.






End Iterations.









(** X1. The list [getNMembers] returns is the concatenation, in order, of
    the records of all the pages it fetched, and it holds at least [n]
    records, whatever the directory answered. *)
Theorem getNMembers_returns_fetched_pages :
  forall env fuel n accessToken w l w',
    getNMembers env fuel n accessToken w = (Ok l, w') ->
    l = concat (map page_records (issued w w')) /\ n <= length l.
Proof.
  intros env fuel n accessToken w l w' Hget.
  apply getNMembers_run in Hget as (Hrun & _ & _).
  now apply page_run_returns in Hrun.
Qed.

Lemma getNMembers_returns_fetched_pages_witness :
  exists l w',
    getNMembers (env_with short_pages patch_ok (bulk_success 10) 0)
      20 250 "token" w0 = (Ok l, w')
    /\ l = concat (map page_records (issued w0 w'))
    /\ length (issued w0 w') = 9.
Proof.
  eexists. eexists. split; [vm_compute; reflexivity|].
  match goal with
  | |- ?res = concat (map page_records (issued w0 ?w1)) /\ _ =>
      destruct (getNMembers_returns_fetched_pages
                  (env_with short_pages patch_ok (bulk_success 10) 0)
                  20 250 "token" w0 res w1 ltac:(vm_compute; reflexivity))
        as [Hl _]
  end.
  split; [exact Hl|vm_compute; reflexivity].
Defined.

(** X2. [getNMembers] has no handler: a page request that axios rejects
    makes it throw that error, and no further page is requested. *)
Theorem getNMembers_rejected_page_aborts :
  forall env fuel n accessToken w o w',
    getNMembers env fuel n accessToken w = (o, w') ->
    forall k accessToken' page perPage r reason,
      nth_error (issued w w') k = Some (GetMembers accessToken' page perPage r) ->
      answered r = Rejected reason ->
      o = Throw (AxiosError reason) /\ length (issued w w') = S k.
Proof.
  intros env fuel n accessToken w o w' Hget
         k accessToken' page perPage r reason Hnth Hans.
  apply getNMembers_run in Hget as (Hrun & _ & _).
  exact (page_run_rejected _ _ _ _ _ _ Hrun _ _ _ _ _ _ Hnth Hans).
Qed.

Lemma getNMembers_rejected_page_aborts_witness :
  fst (getNMembers (env_with two_pages_then_down patch_ok (bulk_success 10) 0)
         20 450 "token" w0)
  = Throw (AxiosError "timeout of 1000ms exceeded")
  /\ length (issued w0
               (snd (getNMembers
                       (env_with two_pages_then_down patch_ok (bulk_success 10) 0)
                       20 450 "token" w0))) = 3.
Proof.
  apply (getNMembers_rejected_page_aborts
           (env_with two_pages_then_down patch_ok (bulk_success 10) 0)
           20 450 "token" w0 _ _ (surjective_pairing _)
           2 "token" 3 100 (rejected 40 "timeout of 1000ms exceeded")
           "timeout of 1000ms exceeded").
  - vm_compute. reflexivity.
  - reflexivity.
Defined.

(** No page of the directory holds more records than were asked for. *)
Definition bounded_pages (env : environment) : Prop :=
  forall history accessToken page perPage resp,
    answered (members_api env history accessToken page perPage) = Resolved resp ->
    length (data resp) <= perPage.

(** X3. When the directory never returns more records than [perPage]
    (pages may be short), a call of [getNMembers n] that returns has
    exactly [n] records. *)
Theorem getNMembers_exact_when_pages_bounded :
  forall env fuel n accessToken w l w',
    bounded_pages env ->
    getNMembers env fuel n accessToken w = (Ok l, w') ->
    length l = n.
Proof.
  intros env fuel n accessToken w l w' Hbounded Hget.
  pose proof (getNMembers_replies env fuel n accessToken w) as Hreplies.
  rewrite Hget in Hreplies. cbn [snd] in Hreplies.
  apply getNMembers_run in Hget as (Hrun & _ & _).
  apply (page_run_bounded _ _ _ _ _ _ Hrun); [cbn [length]; lia|].
  eapply Forall_impl; [|exact Hreplies].
  intros x (history & page & perPage & ->).
  cbn [page_records page_request snd].
  destruct (answered _) as [reason|resp] eqn:Hans; [cbn [length]; lia|].
  exact (Hbounded _ _ _ _ _ Hans).
Qed.

Lemma short_pages_bounded patch bulk size :
  bounded_pages (env_with short_pages patch bulk size).
Proof.
  intros history accessToken page perPage resp Hans.
  cbn in Hans. injection Hans as <-. cbn [data].
  rewrite repeat_length. apply Nat.le_min_l.
Qed.

Lemma getNMembers_exact_when_pages_bounded_witness :
  exists l w',
    getNMembers (env_with short_pages patch_ok (bulk_success 10) 0)
      20 250 "token" w0 = (Ok l, w')
    /\ length l = 250.
Proof.
  eexists. eexists. split; [vm_compute; reflexivity|].
  match goal with
  | |- length ?res = 250 =>
      apply (getNMembers_exact_when_pages_bounded
               (env_with short_pages patch_ok (bulk_success 10) 0)
               20 250 "token" w0 res
               (snd (getNMembers
                       (env_with short_pages patch_ok (bulk_success 10) 0)
                       20 250 "token" w0)))
  end.
  - apply short_pages_bounded.
  - vm_compute. reflexivity.
Defined.

(** X4. When every page holds exactly the records asked for, the page
    requests of a call of [getNMembers n] that returns are, in order,
    pages 1, 2, ... with [perPage = 100], the last one with what is left of
    [n]: request [k] (from 0) asks page [k + 1] for [min 100 (n - 100 k)]
    records, and there are [ceil(n/100)] requests. *)
Theorem getNMembers_page_sequence :
  forall env fuel n accessToken w l w',
    exact_pages env ->
    getNMembers env fuel n accessToken w = (Ok l, w') ->
    map page_request (issued w w')
    = map (fun k => (k + 1, min 100 (n - 100 * k))) (seq 0 (ceil_div_100 n)).
Proof.
  intros env fuel n accessToken w l w' Hexact Hget.
  pose proof (getNMembers_replies env fuel n accessToken w) as Hreplies.
  rewrite Hget in Hreplies. cbn [snd] in Hreplies.
  apply getNMembers_run in Hget as (Hrun & _ & _).
  rewrite (page_run_exact _ _ _ _ _ _ Hrun).
  - cbn [length]. rewrite Nat.sub_0_r. apply map_ext.
    intros k. f_equal; lia.
  - cbn [length]. lia.
  - eapply Forall_impl; [|exact Hreplies].
    intros x (history & page & perPage & ->).
    cbn [page_records page_request snd].
    destruct (Hexact history accessToken page perPage) as [resp [-> Hlen]].
    exact Hlen.
Qed.

Lemma getNMembers_page_sequence_witness :
  map page_request
      (issued w0
         (snd (getNMembers (env_with full_pages patch_ok (bulk_success 10) 0)
                 5 250 "token" w0)))
  = [(1, 100); (2, 100); (3, 50)].
Proof.
  apply (getNMembers_page_sequence
           (env_with full_pages patch_ok (bulk_success 10) 0)
           5 250 "token" w0
           (match fst (getNMembers
                         (env_with full_pages patch_ok (bulk_success 10) 0)
                         5 250 "token" w0) with
            | Ok l => l
            | _ => []
            end)
           (snd (getNMembers (env_with full_pages patch_ok (bulk_success 10) 0)
                   5 250 "token" w0))).
  - apply full_pages_exact.
  - vm_compute. reflexivity.
Defined.

(** X5. The fixed delay between pages: when [getNMembers] returns, the
    script's clock has advanced by the time its page requests took plus
    100 ms of sleep for each of them. *)
Theorem getNMembers_elapsed :
  forall env fuel n accessToken w l w',
    getNMembers env fuel n accessToken w = (Ok l, w') ->
    (clock w' - clock w
     = total_took (issued w w') + 100 * Z.of_nat (length (issued w w')))%Z.
Proof.
  intros env fuel n accessToken w l w' Hget.
  apply getNMembers_run in Hget as (_ & _ & Hclock).
  rewrite (Hclock l eq_refl). lia.
Qed.

Lemma getNMembers_elapsed_witness :
  (clock (snd (getNMembers (env_with full_pages patch_ok (bulk_success 10) 0)
                 5 250 "token" w0)) - clock w0
   = 120 + 100 * 3)%Z.
Proof.
  apply (getNMembers_elapsed
           (env_with full_pages patch_ok (bulk_success 10) 0)
           5 250 "token" w0
           (match fst (getNMembers
                         (env_with full_pages patch_ok (bulk_success 10) 0)
                         5 250 "token" w0) with
            | Ok l => l
            | _ => []
            end)
           (snd (getNMembers (env_with full_pages patch_ok (bulk_success 10) 0)
                   5 250 "token" w0))).
  vm_compute. reflexivity.
Defined.

(** ** The bulk adder: why it throws, when it returns *)

Lemma check_reply_rejected groupId r reason :
  answered r = Rejected reason ->
  check_reply groupId r = inl (AxiosError reason).
Proof. intros Hans. unfold check_reply. now rewrite Hans. Qed.

Lemma check_reply_throws groupId r e :
  check_reply groupId r = inl e ->
  (exists reason, answered r = Rejected reason /\ e = AxiosError reason)
  \/ (exists resp,
        answered r = Resolved resp
        /\ (status resp <> 200%Z
            \/ (took r > 30000)%Z
            \/ exists m, In m (body_members (data resp))
                         /\ mr_status m = "failed")).
Proof.
  unfold check_reply. destruct (answered r) as [reason|resp].
  - intros [= <-]. left. now exists reason.
  - intros Hcheck. right. exists resp. split; [reflexivity|].
    destruct (Z.eqb_spec (status resp) 200) as [Hst|Hst]; cbn [negb] in Hcheck;
      [|now left].
    destruct (Z.gtb_spec (took r) 30000) as [Hgt|Hle]; [right; left; lia|].
    destruct (existsb is_failed (body_members (data resp))) eqn:Hex;
      [|discriminate].
    right. right. apply existsb_exists in Hex as [m [Hin Hfailed]].
    exists m. split; [exact Hin|now apply is_failed_status].
Qed.

Lemma check_reply_accepts groupId r resp :
  answered r = Resolved resp ->
  status resp = 200%Z ->
  (took r <= 30000)%Z ->
  Forall (fun m => mr_status m <> "failed") (body_members (data resp)) ->
  check_reply groupId r = inr (body_members (data resp)).
Proof.
  intros Hans Hst Hle Hnone. unfold check_reply. rewrite Hans, Hst.
  cbn [Z.eqb Pos.eqb negb].
  destruct (Z.gtb_spec (took r) 30000); [lia|].
  destruct (existsb is_failed (body_members (data resp))) eqn:Hex;
    [|reflexivity].
  apply existsb_exists in Hex as [m [Hin Hfailed]].
  rewrite Forall_forall in Hnone.
  apply is_failed_status in Hfailed. now apply Hnone in Hin.
Qed.

(** A run that throws ends with the exchange that made it throw; the
    exchanges before it were accepted. *)
Lemma chunk_run_throws groupId members accessToken i result xs e result' :
  chunk_run groupId members accessToken i result xs (Throw e) result' ->
  exists ys chunk r,
    xs = ys ++ [PostMembers accessToken groupId chunk r]
    /\ check_reply groupId r = inl e
    /\ Forall (accepted_response groupId accessToken) ys.
Proof.
  intros Hrun. remember (Throw e) as o eqn:Ho. revert Ho.
  induction Hrun as [i result Hend
                    |i result r0 e0 Hlt Hcheck0
                    |i result r0 added xs o result' Hlt Hcheck0 Hrun IH];
    intros Ho; try discriminate.
  - injection Ho as ->. exists [], (slice members i (i + chunkSize)), r0.
    repeat split; [assumption|constructor].
  - destruct (IH Ho) as (ys & chunk & r & -> & Hcheck & Hacc).
    exists (PostMembers accessToken groupId (slice members i (i + chunkSize)) r0
            :: ys), chunk, r.
    repeat split; [assumption|]. constructor; [|exact Hacc].
    apply check_reply_appends in Hcheck0 as (resp & Hans & Hst & Hle & _ & _).
    exists (slice members i (i + chunkSize)), r0, resp.
    repeat split; assumption.
Qed.

(** X6. [addMembers] has no handler either: a bulk-add call that axios
    rejects makes it throw that error, and no later chunk is requested. *)
Theorem addMembers_rejected_call_aborts :
  forall env groupId members accessToken w o w',
    addMembers env groupId members accessToken w = (o, w') ->
    forall k accessToken' groupId' chunk r reason,
      nth_error (issued w w') k = Some (PostMembers accessToken' groupId' chunk r) ->
      answered r = Rejected reason ->
      o = Throw (AxiosError reason) /\ length (issued w w') = S k.
Proof.
  intros env groupId members accessToken w o w' Hadd
         k accessToken' groupId' chunk r reason Hnth Hans.
  apply addMembers_spec in Hadd as (o' & result & Hshape & _ & ->).
  pose proof (check_reply_rejected groupId r reason Hans) as Hcheck.
  destruct (chunk_run_abort _ _ _ _ _ _ _ _ Hshape _ _ _ _ _ _ Hnth Hcheck)
    as (-> & Hlen & _).
  split; [reflexivity|exact Hlen].
Qed.

(** Three chunks; the second call is rejected. *)
Definition env_rejected_second : environment :=
  env_with full_pages patch_ok
    (bulk_script [reply_all 10 200 "success";
                  fun _ => rejected 15 "socket hang up"]
                 (reply_all 10 200 "success"))
    0.

Lemma addMembers_rejected_call_aborts_witness :
  fst (addMembers env_rejected_second "g1" (test_members 250) "token" w0)
  = Throw (AxiosError "socket hang up")
  /\ length (issued w0
               (snd (addMembers env_rejected_second "g1" (test_members 250)
                       "token" w0))) = 2.
Proof.
  apply (addMembers_rejected_call_aborts
           env_rejected_second "g1" (test_members 250) "token" w0 _ _
           (surjective_pairing _)
           1 "token" "g1" (slice (test_members 250) 100 200)
           (rejected 15 "socket hang up") "socket hang up").
  - vm_compute. reflexivity.
  - reflexivity.
Defined.

(** X7. For services that answer with well-formed bodies whose
    [members] array has at most one entry per member sent, [addMembers]
    throws only because of the last call it made: when it throws [e], all
    the exchanges before the last were accepted (status 200, within the
    budget), and the last call was rejected with [e], or its response has
    a status other than 200, or took more than 30000 ms, or holds an entry
    with status ["failed"].  (A body without a [members] array, or an
    array too large to spread, makes the script raise a TypeError or a
    RangeError; the typed body and the bound on the arrays leave these
    out.) *)
Theorem addMembers_throws_for_last_call :
  forall env groupId members accessToken w e w',
    addMembers env groupId members accessToken w = (Throw e, w') ->
    Forall (fun x => length (response_members x) <= length (request_chunk x))
           (issued w w') ->
    exists before chunk r,
      issued w w' = before ++ [PostMembers accessToken groupId chunk r]
      /\ Forall (accepted_response groupId accessToken) before
      /\ ((exists reason, answered r = Rejected reason /\ e = AxiosError reason)
          \/ (exists resp,
                answered r = Resolved resp
                /\ (status resp <> 200%Z
                    \/ (took r > 30000)%Z
                    \/ exists m, In m (body_members (data resp))
                                 /\ mr_status m = "failed"))).
Proof.
  intros env groupId members accessToken w e w' Hadd _.
  apply addMembers_spec in Hadd as (o' & result & Hshape & _ & Ho).
  destruct o' as [[]|e'|]; try discriminate. injection Ho as <-.
  apply chunk_run_throws in Hshape as (ys & chunk & r & Hxs & Hcheck & Hacc).
  exists ys, chunk, r.
  split; [exact Hxs|]. split; [exact Hacc|].
  now apply check_reply_throws in Hcheck.
Qed.

Lemma addMembers_throws_for_last_call_witness :
  exists before chunk r,
    issued w0 (snd (addMembers env_202_second "g1" (test_members 250) "token" w0))
    = before ++ [PostMembers "token" "g1" chunk r]
    /\ Forall (accepted_response "g1" "token") before.
Proof.
  destruct (addMembers_throws_for_last_call
              env_202_second "g1" (test_members 250) "token" w0
              (Error "Failed to add bulk member to group g1: [object Object]")
              (snd (addMembers env_202_second "g1" (test_members 250) "token" w0))
              ltac:(vm_compute; reflexivity)
              ltac:(vm_compute; repeat constructor))
    as (before & chunk & r & Hxs & Hacc & _).
  exists before, chunk, r. split; assumption.
Defined.

(** Every bulk-add call is answered with status 200, within the budget,
    and with a [members] array that has no failed entry and at most one
    entry per member of the chunk (so at most 100, which the script can
    spread into [result.push]). *)
Definition accepting_bulk (env : environment) : Prop :=
  forall history accessToken groupId chunk,
  exists resp,
    answered (post_members env history accessToken groupId chunk) = Resolved resp
    /\ status resp = 200%Z
    /\ (took (post_members env history accessToken groupId chunk) <= 30000)%Z
    /\ Forall (fun m => mr_status m <> "failed") (body_members (data resp))
    /\ length (body_members (data resp)) <= length chunk.

Lemma addMembers_loop_accepting env groupId members accessToken :
  accepting_bulk env ->
  forall fuel i result w,
    length members - i <= fuel ->
    fst (fst (addMembers_loop env fuel groupId members accessToken i result w))
    = Ok tt.
Proof.
  intros Haccept.
  induction fuel as [|fuel IH]; intros i result w Hfuel.
  - now rewrite addMembers_loop_done by lia.
  - destruct (Nat.lt_ge_cases i (length members)) as [Hlt|Hge];
      [|now rewrite addMembers_loop_done by lia].
    rewrite addMembers_loop_step by assumption.
    unfold chunk_reply.
    destruct (Haccept (trace w) accessToken groupId
                (slice members i (i + chunkSize)))
      as (resp & Hans & Hst & Hle & Hnone & _).
    rewrite (check_reply_accepts groupId _ resp Hans Hst Hle Hnone).
    apply IH. unfold chunkSize. lia.
Qed.

(** X8. When the service answers every bulk-add call with status 200, in
    at most 30000 ms, and with a well-formed body whose [members] array has
    no failed entry and at most one entry per member sent, [addMembers]
    returns, after exactly [ceil(M/100)] requests whose chunks make up the
    member list.  (A body without a [members] array, or an array too large
    to spread, makes the script raise a TypeError or a RangeError; the
    typed body and the bound on the array leave these out.) *)
Theorem addMembers_returns_when_all_accepted :
  forall env groupId members accessToken w,
    accepting_bulk env ->
    exists result w',
      addMembers env groupId members accessToken w = (Ok result, w')
      /\ length (issued w w') = ceil_div_100 (length members)
      /\ concat (map request_chunk (issued w w')) = members.
Proof.
  intros env groupId members accessToken w Haccept.
  destruct (addMembers env groupId members accessToken w) as [o w'] eqn:Hadd.
  pose proof Hadd as Hspec.
  apply addMembers_spec in Hspec as (o' & result & Hshape & Hrun & Ho).
  pose proof (addMembers_loop_accepting env groupId members accessToken Haccept
                (length members) 0 [] w ltac:(lia)) as Hok.
  unfold addMembers_run in Hrun. rewrite Hrun in Hok. cbn [fst] in Hok.
  subst o' o. exists result, w'. split; [reflexivity|].
  apply chunk_run_chunks in Hshape as (_ & _ & _ & Hall).
  destruct (Hall eq_refl) as [Hlen Hcover].
  rewrite Nat.sub_0_r in Hlen. cbn [skipn] in Hcover.
  split; assumption.
Qed.

Lemma bulk_success_accepting directory patch ms size :
  (ms <= 30000)%Z ->
  accepting_bulk (env_with directory patch (bulk_success ms) size).
Proof.
  intros Hms history accessToken groupId chunk.
  eexists. split; [reflexivity|]. split; [reflexivity|]. split; [exact Hms|].
  cbn [data body_members]. split.
  - apply Forall_forall.
    intros m Hin. apply in_map_iff in Hin as (x & <- & _). discriminate.
  - now rewrite length_map.
Qed.

(** The budget is inclusive: responses that take exactly 30000 ms are
    accepted. *)
Lemma addMembers_returns_when_all_accepted_witness :
  exists result w',
    addMembers (env_with full_pages patch_ok (bulk_success 30000) 0)
      "g1" (test_members 250) "token" w0 = (Ok result, w')
    /\ length (issued w0 w') = 3
    /\ concat (map request_chunk (issued w0 w')) = test_members 250.
Proof.
  apply (addMembers_returns_when_all_accepted
           (env_with full_pages patch_ok (bulk_success 30000) 0)
           "g1" (test_members 250) "token" w0).
  apply bulk_success_accepting. lia.
Defined.

(** ** The stages of [main] *)

Lemma await_world {A} (r : reply A) (x : exchange) (w : world) :
  snd (await r x w)
  = {| clock := (clock w + took r)%Z; trace := trace w ++ [x]; draws := draws w |}.
Proof. unfold await. destruct (answered r); reflexivity. Qed.

Lemma getM2Mtoken_stage env w o w1 :
  getM2Mtoken env w = (o, w1) ->
  trace w1 = trace w ++ [GetToken (auth0 env (trace w))]
  /\ o <> OutOfFuel.
Proof.
  unfold getM2Mtoken, await.
  destruct (answered (auth0 env (trace w))); intros [= <- <-];
    split; (reflexivity || discriminate).
Qed.

(** The loop that makes up the members draws [count] numbers and calls no
    service. *)
Lemma random_members_eq env count :
  forall members w,
    random_members env count members w
    = (Ok (members
           ++ map (fun k => {| userId := toString (lodash_random env (draws w + k)) |})
                  (seq 0 count)),
       {| clock := clock w; trace := trace w; draws := draws w + count |}).
Proof.
  induction count as [|count IH]; intros members w.
  - cbn [random_members seq map]. unfold ret.
    rewrite app_nil_r, Nat.add_0_r. now destruct w.
  - cbn [random_members]. unfold bind, draw. rewrite IH.
    cbn [clock trace draws seq map].
    rewrite <- seq_shift, map_map, <- app_assoc, Nat.add_0_r.
    cbn [app]. f_equal.
    + do 3 f_equal. apply map_ext. intros k. do 3 f_equal. lia.
    + f_equal. lia.
Qed.

Lemma groupApiHealthCheck_stage env accessToken w o w3 :
  groupApiHealthCheck env accessToken w = (o, w3) ->
  trace w3 = trace w ++ [GetHealth accessToken (health_api env (trace w) accessToken)]
  /\ o <> OutOfFuel
  /\ (o = Ok tt ->
      exists resp,
        answered (health_api env (trace w) accessToken) = Resolved resp
        /\ status resp = 200%Z)
  /\ (forall e, o = Throw e ->
      forall resp,
        answered (health_api env (trace w) accessToken) = Resolved resp ->
        status resp <> 200%Z).
Proof.
  unfold groupApiHealthCheck, bind, axios_get_health, await.
  destruct (answered (health_api env (trace w) accessToken)) as [reason|resp].
  - intros [= <- <-]. repeat split; discriminate.
  - destruct (Z.eqb_spec (status resp) 200) as [Hst|Hst]; cbn [negb];
      unfold throw, ret; intros [= <- <-]; repeat split; try discriminate.
    + intros _. now exists resp.
    + intros e _ resp' [= <-]. exact Hst.
Qed.

(** The name [createTestGroup] gives the group, the POST that creates it
    and the PATCH that follows, from the world the function starts in. *)
Definition test_group_name (env : environment) (w : world) : string :=
  "TestGroup-" ++ uuid_v4 env (draws w).

Definition create_reply (env : environment) (accessToken : string) (w : world)
  : reply group :=
  post_group env (trace w) accessToken (test_group_name env w).

Definition create_exchange (env : environment) (accessToken : string)
  (w : world) : exchange :=
  PostGroup accessToken (test_group_name env w) (create_reply env accessToken w).

Definition patch_reply (env : environment) (accessToken groupId : string)
  (w : world) : reply group :=
  patch_group env (trace w ++ [create_exchange env accessToken w])
    accessToken groupId (uuid_v4 env (S (draws w))).

Definition patch_exchange (env : environment) (accessToken groupId : string)
  (w : world) : exchange :=
  PatchGroup accessToken groupId (uuid_v4 env (S (draws w)))
    (patch_reply env accessToken groupId w).

(** What [createTestGroup] does, case by case. *)
Lemma createTestGroup_stage env accessToken w o w4 :
  createTestGroup env accessToken w = (o, w4) ->
  o <> OutOfFuel
  /\ ((trace w4 = trace w ++ [create_exchange env accessToken w]
       /\ (exists e, o = Throw e)
       /\ forall resp,
            answered (create_reply env accessToken w) = Resolved resp ->
            status resp <> 200%Z)
      \/ exists resp,
           answered (create_reply env accessToken w) = Resolved resp
           /\ status resp = 200%Z
           /\ trace w4
              = trace w ++ [create_exchange env accessToken w;
                            patch_exchange env accessToken (id (data resp)) w]
           /\ ((exists e, o = Throw e)
               /\ (forall resp',
                     answered (patch_reply env accessToken (id (data resp)) w)
                     = Resolved resp' ->
                     status resp' <> 200%Z)
               \/ o = Ok (id (data resp))
                  /\ exists resp',
                       answered (patch_reply env accessToken (id (data resp)) w)
                       = Resolved resp'
                       /\ status resp' = 200%Z)).
Proof.
  unfold createTestGroup, bind at 1, draw. unfold bind at 1.
  unfold axios_post_group, await. cbn [trace clock draws].
  fold (test_group_name env w). fold (create_reply env accessToken w).
  fold (create_exchange env accessToken w).
  destruct (answered (create_reply env accessToken w)) as [reason|resp] eqn:Hans.
  { intros [= <- <-]. split; [discriminate|]. left.
    split; [reflexivity|]. split; [eexists; reflexivity|discriminate]. }
  destruct (Z.eqb_spec (status resp) 200) as [Hst|Hst]; cbn [negb].
  2:{ unfold throw. intros [= <- <-]. split; [discriminate|]. left.
      split; [reflexivity|]. split; [eexists; reflexivity|].
      now intros resp' [= <-]. }
  unfold bind, patchTestGroup, bind, draw, axios_patch_group, await.
  cbn [trace clock draws].
  fold (patch_reply env accessToken (id (data resp)) w).
  fold (patch_exchange env accessToken (id (data resp)) w).
  destruct (answered (patch_reply env accessToken (id (data resp)) w))
    as [reason'|resp'] eqn:Hans'.
  { intros [= <- <-]. split; [discriminate|]. right. exists resp.
    split; [reflexivity|]. split; [exact Hst|].
    split; [cbn [trace]; now rewrite <- app_assoc|].
    left. split; [eexists; reflexivity|]. intros resp' Hres. congruence. }
  destruct (Z.eqb_spec (status resp') 200) as [Hst'|Hst']; cbn [negb];
    unfold throw, ret; intros [= <- <-]; (split; [discriminate|]);
    right; exists resp;
    (split; [reflexivity|]); (split; [exact Hst|]);
    (split; [cbn [trace]; now rewrite <- app_assoc|]).
  - right. split; [reflexivity|]. now exists resp'.
  - left. split; [eexists; reflexivity|]. intros resp'' Hres. congruence.
Qed.

(** X9. When [createTestGroup] returns an id, it has made exactly two
    calls: the POST of a group named ["TestGroup-<uuid>"], answered with
    status 200 and a body whose [id] is the id returned, and the PATCH of
    that same id with another uuid as [oldId], answered with status 200. *)
Theorem createTestGroup_returns_patched_group :
  forall env accessToken w groupId w',
    createTestGroup env accessToken w = (Ok groupId, w') ->
    exists rp resp rq resp',
      issued w w'
      = [PostGroup accessToken ("TestGroup-" ++ uuid_v4 env (draws w)) rp;
         PatchGroup accessToken groupId (uuid_v4 env (S (draws w))) rq]
      /\ answered rp = Resolved resp
      /\ status resp = 200%Z
      /\ id (data resp) = groupId
      /\ answered rq = Resolved resp'
      /\ status resp' = 200%Z.
Proof.
  intros env accessToken w groupId w' Hcreate.
  apply createTestGroup_stage in Hcreate as [_ [Hpost|Hpatch]].
  - destruct Hpost as (_ & [e He] & _). discriminate.
  - destruct Hpatch as (resp & Hans & Hst & Htr & [[[e He] _]|[Ho Hq]]);
      [discriminate|].
    injection Ho as ->. destruct Hq as (resp' & Hans' & Hst').
    exists (create_reply env accessToken w), resp,
      (patch_reply env accessToken (id (data resp)) w), resp'.
    split; [exact (issued_app _ _ _ Htr)|]. repeat split; assumption.
Qed.

Lemma createTestGroup_returns_patched_group_witness :
  exists rp resp rq resp',
    issued w0 (snd (createTestGroup
                      (env_with full_pages patch_ok (bulk_success 10) 0)
                      "token" w0))
    = [PostGroup "token" ("TestGroup-" ++ "uuid-0") rp;
       PatchGroup "token" "g1" "uuid-1" rq]
    /\ answered rp = Resolved resp
    /\ status resp = 200%Z
    /\ id (data resp) = "g1"
    /\ answered rq = Resolved resp'
    /\ status resp' = 200%Z.
Proof.
  apply (createTestGroup_returns_patched_group
           (env_with full_pages patch_ok (bulk_success 10) 0) "token" w0 "g1").
  vm_compute. reflexivity.
Defined.

(** X10. [createTestGroup] accepts the status 200 only.  When the POST is
    rejected or answered with any other status (201 Created included), it
    throws, and the POST is the only call it makes: the group is not
    patched. *)
Theorem createTestGroup_stops_after_failed_post :
  forall env accessToken w,
    (forall resp,
       answered (post_group env (trace w) accessToken
                   ("TestGroup-" ++ uuid_v4 env (draws w))) = Resolved resp ->
       status resp <> 200%Z) ->
    (exists e, fst (createTestGroup env accessToken w) = Throw e)
    /\ issued w (snd (createTestGroup env accessToken w))
       = [PostGroup accessToken ("TestGroup-" ++ uuid_v4 env (draws w))
            (post_group env (trace w) accessToken
               ("TestGroup-" ++ uuid_v4 env (draws w)))].
Proof.
  intros env accessToken w Hnot200.
  destruct (createTestGroup env accessToken w) as [o w'] eqn:Hcreate.
  apply createTestGroup_stage in Hcreate as [_ [Hpost|Hpatch]].
  - destruct Hpost as (Htr & He & _). cbn [fst snd].
    split; [exact He|exact (issued_app _ _ _ Htr)].
  - destruct Hpatch as (resp & Hans & Hst & _).
    exfalso. exact (Hnot200 resp Hans Hst).
Qed.

(** The group endpoint answers the creation with 201 Created. *)
Definition env_created_201 : environment :=
  {| auth0 := fun _ => resolved 20 200 "token";
     members_api := full_pages;
     health_api := fun _ _ => resolved 5 200 tt;
     post_group := fun _ _ _ => resolved 30 201 {| id := "g1" |};
     patch_group := patch_ok;
     delete_group := fun _ _ groupId => resolved 30 200 {| id := groupId |};
     post_members := bulk_success 10;
     uuid_v4 := fun k => ("uuid-" ++ toString k)%string;
     lodash_random := fun k => (10000000 + Z.of_nat k)%Z;
     AUTH0_CLIENT_ID := Some "client";
     AUTH0_CLIENT_SECRET := Some "secret";
     INITIAL_MEMBER_SIZE := 3 |}.

Lemma createTestGroup_stops_after_failed_post_witness :
  (exists e, fst (createTestGroup env_created_201 "token" w0) = Throw e)
  /\ issued w0 (snd (createTestGroup env_created_201 "token" w0))
     = [PostGroup "token" "TestGroup-uuid-0" (resolved 30 201 {| id := "g1" |})].
Proof.
  apply (createTestGroup_stops_after_failed_post env_created_201 "token" w0).
  intros resp Hans. cbn in Hans. injection Hans as <-. cbn [status]. lia.
Defined.

Lemma addMembers_stage env groupId members accessToken w o w5 :
  addMembers env groupId members accessToken w = (o, w5) ->
  trace w5 = trace w ++ issued w w5
  /\ Forall (bulk_request accessToken groupId) (issued w w5)
  /\ o <> OutOfFuel.
Proof.
  intros Hadd.
  pose proof (addMembers_total env groupId members accessToken w) as Htotal.
  rewrite Hadd in Htotal. cbn [fst] in Htotal.
  pose proof Hadd as Hspec.
  apply addMembers_spec in Hspec as (o' & result & Hshape & _ & _).
  apply chunk_run_requests in Hshape.
  split; [|split; assumption].
  unfold addMembers, addMembers_run in Hadd.
  destruct (addMembers_loop_run env groupId members accessToken
              (length members) 0 [] w ltac:(lia))
    as (xs & o1 & result1 & w1 & Hrun & Htr & _).
  rewrite Hrun in Hadd.
  assert (w1 = w5) as -> by (destruct o1; now injection Hadd).
  now rewrite (issued_app _ _ _ Htr).
Qed.

Lemma deleteTestGroup_stage env groupId accessToken w od w6 :
  deleteTestGroup env groupId accessToken w = (od, w6) ->
  trace w6 = trace w ++ [DeleteGroup accessToken groupId
                           (delete_group env (trace w) accessToken groupId)]
  /\ od <> OutOfFuel
  /\ (forall g, od = Ok g ->
      exists resp,
        answered (delete_group env (trace w) accessToken groupId) = Resolved resp
        /\ status resp = 200%Z).
Proof.
  unfold deleteTestGroup, bind, axios_delete_group, await.
  destruct (answered (delete_group env (trace w) accessToken groupId))
    as [reason|resp].
  - intros [= <- <-]. repeat split; discriminate.
  - destruct (Z.eqb_spec (status resp) 200) as [Hst|Hst]; cbn [negb];
      unfold throw, ret; intros [= <- <-]; repeat split; try discriminate.
    intros g _. now exists resp.
Qed.

(** The members [main] makes up, from the random numbers [first],
    [first + 1], ... of the source. *)
Definition generated_members (env : environment) (first : nat) : list member :=
  map (fun k => {| userId := toString (lodash_random env (first + k)) |})
      (seq 0 (INITIAL_MEMBER_SIZE env)).

(** The [try] block of [main] followed by its [finally] block. *)
Lemma main_try_finally env groupId members accessToken w4 :
  try_finally
    (bind getTime (fun _ =>
     bind (addMembers env groupId members accessToken) (fun _ =>
     bind getTime (fun _ => ret tt))))
    (deleteTestGroup env groupId accessToken) w4
  = match addMembers env groupId members accessToken w4 with
    | (OutOfFuel, w5) => (OutOfFuel, w5)
    | (o, w5) =>
        match deleteTestGroup env groupId accessToken w5 with
        | (Ok _, w6) =>
            (match o with
             | Ok _ => Ok tt
             | Throw e => Throw e
             | OutOfFuel => OutOfFuel
             end, w6)
        | (Throw e, w6) => (Throw e, w6)
        | (OutOfFuel, w6) => (OutOfFuel, w6)
        end
    end.
Proof.
  unfold try_finally, bind, getTime, ret.
  destruct (addMembers env groupId members accessToken w4) as [[result|e|] w5];
    reflexivity.
Qed.

(** The exchanges of a run of [main] that stops before the [try] block:
    a config key is missing, the token is refused, the health check fails,
    or [createTestGroup] fails at its POST or at its PATCH. *)
Inductive early_stop (env : environment) : list exchange -> Prop :=
| stop_config :
    falsy (AUTH0_CLIENT_ID env) = true \/ falsy (AUTH0_CLIENT_SECRET env) = true ->
    early_stop env []
| stop_token r reason :
    answered r = Rejected reason ->
    early_stop env [GetToken r]
| stop_health r accessToken rh :
    (forall resp, answered rh = Resolved resp -> status resp <> 200%Z) ->
    early_stop env [GetToken r; GetHealth accessToken rh]
| stop_post r accessToken rh resp_h name rp :
    answered rh = Resolved resp_h -> status resp_h = 200%Z ->
    (forall resp, answered rp = Resolved resp -> status resp <> 200%Z) ->
    early_stop env [GetToken r; GetHealth accessToken rh;
                    PostGroup accessToken name rp]
| stop_patch r accessToken rh resp_h name rp resp oldId rq :
    answered rh = Resolved resp_h -> status resp_h = 200%Z ->
    answered rp = Resolved resp -> status resp = 200%Z ->
    (forall resp', answered rq = Resolved resp' -> status resp' <> 200%Z) ->
    early_stop env [GetToken r; GetHealth accessToken rh;
                    PostGroup accessToken name rp;
                    PatchGroup accessToken (id (data resp)) oldId rq].

(** What a run of [main] looks like: it stops with an error before the
    [try] block, or it goes through the token, the health check,
    [createTestGroup], [addMembers] and [deleteTestGroup]. *)
Lemma main_shape env w o w' :
  main env w = (o, w') ->
  ((exists e, o = Throw e) /\ early_stop env (issued w w'))
  \/ exists accessToken resp_t resp_h w3 groupId w4 oa w5 od,
       answered (auth0 env (trace w)) = Resolved resp_t
       /\ accessToken = data resp_t
       /\ trace w3
          = trace w ++ [GetToken (auth0 env (trace w));
                        GetHealth accessToken
                          (health_api env (trace w ++ [GetToken (auth0 env (trace w))])
                             accessToken)]
       /\ answered (health_api env (trace w ++ [GetToken (auth0 env (trace w))])
                      accessToken) = Resolved resp_h
       /\ status resp_h = 200%Z
       /\ createTestGroup env accessToken w3 = (Ok groupId, w4)
       /\ addMembers env groupId
            (map to_group_member (generated_members env (draws w)))
            accessToken w4 = (oa, w5)
       /\ deleteTestGroup env groupId accessToken w5 = (od, w')
       /\ o = match od with
              | Ok _ => match oa with
                        | Ok _ => Ok tt
                        | Throw e => Throw e
                        | OutOfFuel => OutOfFuel
                        end
              | Throw e => Throw e
              | OutOfFuel => OutOfFuel
              end.
Proof.
  unfold main.
  destruct (falsy (AUTH0_CLIENT_ID env)) eqn:Hid.
  { unfold throw. intros [= <- <-]. left.
    split; [eexists; reflexivity|]. rewrite issued_refl.
    apply stop_config. now left. }
  destruct (falsy (AUTH0_CLIENT_SECRET env)) eqn:Hsecret.
  { unfold throw. intros [= <- <-]. left.
    split; [eexists; reflexivity|]. rewrite issued_refl.
    apply stop_config. now right. }
  unfold bind at 1.
  destruct (getM2Mtoken env w) as [ot w1] eqn:Htoken.
  pose proof Htoken as Htoken'.
  apply getM2Mtoken_stage in Htoken' as [Htr1 Hnot1].
  assert (Hdraws : draws w1 = draws w).
  { unfold getM2Mtoken, await in Htoken.
    destruct (answered (auth0 env (trace w))); now injection Htoken as _ <-. }
  destruct ot as [accessToken|e|]; [| |congruence].
  2:{ intros [= <- <-]. left. split; [eexists; reflexivity|].
      rewrite (issued_app _ _ _ Htr1).
      unfold getM2Mtoken, await in Htoken.
      destruct (answered (auth0 env (trace w))) as [reason|resp_t] eqn:Hans;
        [|discriminate].
      now apply stop_token with (reason := reason). }
  assert (Htok : exists resp_t,
             answered (auth0 env (trace w)) = Resolved resp_t
             /\ accessToken = data resp_t).
  { unfold getM2Mtoken, await in Htoken.
    destruct (answered (auth0 env (trace w))) as [reason|resp_t];
      [discriminate|].
    injection Htoken as <- _. now exists resp_t. }
  destruct Htok as (resp_t & Hans_t & Htok).
  unfold bind at 1. rewrite random_members_eq. cbn [app].
  set (w2 := {| clock := clock w1; trace := trace w1;
                draws := draws w1 + INITIAL_MEMBER_SIZE env |}).
  unfold bind at 1.
  destruct (groupApiHealthCheck env accessToken w2) as [oh w3] eqn:Hhealth.
  pose proof Hhealth as Hhealth'.
  apply groupApiHealthCheck_stage in Hhealth' as (Htr3 & Hnot3 & Hok3 & Hko3).
  cbn [trace w2] in Htr3, Hok3, Hko3. rewrite Htr1 in Htr3, Hok3, Hko3.
  rewrite <- app_assoc in Htr3. cbn [app] in Htr3.
  destruct oh as [[]|e|]; [| |congruence].
  2:{ intros [= <- <-]. left. split; [eexists; reflexivity|].
      rewrite (issued_app _ _ _ Htr3).
      apply stop_health. exact (Hko3 e eq_refl). }
  destruct (Hok3 eq_refl) as (resp_h & Hans_h & Hst_h).
  unfold bind at 1.
  destruct (createTestGroup env accessToken w3) as [oc w4] eqn:Hcreate.
  pose proof Hcreate as Hcreate'.
  apply createTestGroup_stage in Hcreate' as [Hnot4 Hcases].
  destruct oc as [groupId|e|]; [| |congruence].
  2:{ intros [= <- <-]. left. split; [eexists; reflexivity|].
      destruct Hcases as [(Htr4 & _ & Hpost)
                         |(resp & Hans_p & Hst_p & Htr4 & [[_ Hpatch]|[Hok _]])];
        [| |discriminate];
        rewrite Htr3, <- app_assoc in Htr4;
        rewrite (issued_app _ _ _ Htr4); cbn [app].
      - now apply stop_post with (resp_h := resp_h).
      - now apply stop_patch with (resp_h := resp_h). }
  rewrite main_try_finally.
  match goal with
  | |- context [addMembers env groupId ?ms accessToken w4] =>
      destruct (addMembers env groupId ms accessToken w4) as [oa w5] eqn:Hadd
  end.
  pose proof Hadd as Hadd'. apply addMembers_stage in Hadd' as (_ & _ & Hnot5).
  destruct (deleteTestGroup env groupId accessToken w5) as [od w6] eqn:Hdelete.
  intros Hmain. right.
  exists accessToken, resp_t, resp_h, w3, groupId, w4, oa, w5, od.
  assert (w6 = w' /\ o = match od with
                         | Ok _ => match oa with
                                   | Ok _ => Ok tt
                                   | Throw e => Throw e
                                   | OutOfFuel => OutOfFuel
                                   end
                         | Throw e => Throw e
                         | OutOfFuel => OutOfFuel
                         end) as [-> ->].
  { destruct oa as [result|e|]; [| |congruence];
      destruct od as [g|e'|]; injection Hmain as <- <-; split; reflexivity. }
  unfold generated_members. rewrite <- Hdraws.
  repeat split; assumption.
Qed.

(** The outcome of [deleteTestGroup], from the reply to its call. *)
Definition delete_outcome (groupId : string) (r : reply group) : outcome group :=
  match answered r with
  | Rejected reason => Throw (AxiosError reason)
  | Resolved resp =>
      if negb (status resp =? 200)%Z then
        Throw (Error ("Failed to delete test group " ++ groupId ++ ": "
                      ++ toString (data resp)))
      else Ok (data resp)
  end.

Lemma deleteTestGroup_eq env groupId accessToken w :
  deleteTestGroup env groupId accessToken w
  = (delete_outcome groupId (delete_group env (trace w) accessToken groupId),
     after_delete env groupId accessToken w).
Proof.
  unfold deleteTestGroup, bind, axios_delete_group, await, delete_outcome,
    after_delete.
  destruct (answered _) as [reason|resp]; [reflexivity|].
  destruct (negb (status resp =? 200)%Z); reflexivity.
Qed.

(** A run of [main] that enters the [try] block: the six kinds of
    exchanges in their order, and the outcome. *)
Definition complete_run (env : environment) (w : world) (xs : list exchange)
  (o : outcome unit) : Prop :=
  exists r accessToken rh resp_h name rp resp oldId rq resp' bulk oa result rd,
    xs = [GetToken r; GetHealth accessToken rh;
          PostGroup accessToken name rp;
          PatchGroup accessToken (id (data resp)) oldId rq]
         ++ bulk ++ [DeleteGroup accessToken (id (data resp)) rd]
    /\ answered rh = Resolved resp_h /\ status resp_h = 200%Z
    /\ answered rp = Resolved resp /\ status resp = 200%Z
    /\ answered rq = Resolved resp' /\ status resp' = 200%Z
    /\ chunk_run (id (data resp))
         (map to_group_member (generated_members env (draws w)))
         accessToken 0 [] bulk oa result
    /\ o = match delete_outcome (id (data resp)) rd with
           | Ok _ => oa
           | Throw e => Throw e
           | OutOfFuel => OutOfFuel
           end.

Lemma main_runs env w o w' :
  main env w = (o, w') ->
  ((exists e, o = Throw e) /\ early_stop env (issued w w'))
  \/ complete_run env w (issued w w') o.
Proof.
  intros Hmain.
  apply main_shape in Hmain
    as [Hearly|(accessToken & resp_t & resp_h & w3 & groupId & w4 & oa & w5 & od
                & Hans_t & Htok & Htr3 & Hans_h & Hst_h & Hcreate & Hadd
                & Hdelete & Ho)];
    [now left|right].
  apply createTestGroup_stage in Hcreate as [_ [Hpost|Hpatch]].
  { destruct Hpost as (_ & [e He] & _). discriminate. }
  destruct Hpatch as (resp & Hans_p & Hst_p & Htr4 & [[[e He] _]|[Hgid Hq]]);
    [discriminate|].
  injection Hgid as ->. destruct Hq as (resp' & Hans_q & Hst_q).
  pose proof Hadd as Hadd'.
  apply addMembers_stage in Hadd' as (Htr5 & _ & _).
  apply addMembers_spec in Hadd as (oa' & result & Hshape & _ & Hoa).
  rewrite deleteTestGroup_eq in Hdelete. injection Hdelete as <- <-.
  unfold complete_run.
  exists (auth0 env (trace w)), accessToken,
    (health_api env (trace w ++ [GetToken (auth0 env (trace w))]) accessToken),
    resp_h,
    (test_group_name env w3), (create_reply env accessToken w3), resp,
    (uuid_v4 env (S (draws w3))),
    (patch_reply env accessToken (id (data resp)) w3), resp',
    (issued w4 w5), oa', result,
    (delete_group env (trace w5) accessToken (id (data resp))).
  split.
  { apply issued_app. cbn [after_delete trace].
    rewrite Htr5, Htr4, Htr3. repeat rewrite <- app_assoc. reflexivity. }
  repeat (split; [assumption|]).
  rewrite Ho, Hoa.
  destruct (delete_outcome (id (data resp))
              (delete_group env (trace w5) accessToken (id (data resp))));
    [|reflexivity|reflexivity].
  destruct oa' as [[]|e|]; reflexivity.
Qed.

Lemma nth_error_app_last {A} (pre : list A) (d x : A) (k : nat) :
  nth_error (pre ++ [d]) k = Some x ->
  ~ In x pre ->
  x = d /\ length (pre ++ [d]) = S k.
Proof.
  intros Hnth Hnotin.
  destruct (Nat.lt_ge_cases k (length pre)) as [Hlt|Hge].
  - rewrite nth_error_app1 in Hnth by assumption.
    apply nth_error_In in Hnth. contradiction.
  - rewrite nth_error_app2 in Hnth by assumption.
    destruct (k - length pre) as [|j] eqn:Hk.
    + injection Hnth as <-. split; [reflexivity|].
      rewrite length_app. cbn [length]. lia.
    + destruct j; discriminate.
Qed.

Lemma bulk_requests_not_delete accessToken groupId bulk x :
  Forall (bulk_request accessToken groupId) bulk ->
  In x bulk -> is_delete_request x = false.
Proof.
  intros Hall Hin. rewrite Forall_forall in Hall.
  destruct (Hall x Hin) as (chunk & r & ->). reflexivity.
Qed.

Lemma early_stop_no_delete env xs :
  early_stop env xs -> existsb is_delete_request xs = false.
Proof. destruct 1; reflexivity. Qed.

(** ** The script as a whole *)

(** X11. [main] deletes only what it created: whenever a deletion is
    requested in a run of [main], the run is, in this order, the token,
    the health check, the POST of the group answered 200 with the id, the
    PATCH of that id answered 200, bulk-add requests for that id, and one
    deletion, of that id, as the last exchange. *)
Theorem main_deletes_only_created_group :
  forall env w,
    existsb is_delete_request (issued w (snd (main env w))) = true ->
    exists r accessToken rh name rp resp oldId rq resp' bulk rd,
      issued w (snd (main env w))
      = [GetToken r; GetHealth accessToken rh;
         PostGroup accessToken name rp;
         PatchGroup accessToken (id (data resp)) oldId rq]
        ++ bulk ++ [DeleteGroup accessToken (id (data resp)) rd]
      /\ answered rp = Resolved resp /\ status resp = 200%Z
      /\ answered rq = Resolved resp' /\ status resp' = 200%Z
      /\ Forall (bulk_request accessToken (id (data resp))) bulk.
Proof.
  intros env w Hdel.
  destruct (main env w) as [o w'] eqn:Hmain. cbn [snd] in *.
  apply main_runs in Hmain as [[_ Hearly]|Hrun].
  - apply early_stop_no_delete in Hearly. congruence.
  - destruct Hrun as (r & accessToken & rh & resp_h & name & rp & resp & oldId
                      & rq & resp' & bulk & oa & result & rd
                      & Hxs & _ & _ & Hans_p & Hst_p & Hans_q & Hst_q
                      & Hshape & _).
    exists r, accessToken, rh, name, rp, resp, oldId, rq, resp', bulk, rd.
    apply chunk_run_requests in Hshape.
    repeat split; assumption.
Qed.

Lemma main_deletes_only_created_group_witness :
  exists r accessToken rh name rp resp oldId rq resp' bulk rd,
    issued w0 (snd (main env_main_slow w0))
    = [GetToken r; GetHealth accessToken rh;
       PostGroup accessToken name rp;
       PatchGroup accessToken (id (data resp)) oldId rq]
      ++ bulk ++ [DeleteGroup accessToken (id (data resp)) rd]
    /\ answered rp = Resolved resp /\ status resp = 200%Z
    /\ answered rq = Resolved resp' /\ status resp' = 200%Z
    /\ Forall (bulk_request accessToken (id (data resp))) bulk.
Proof.
  apply (main_deletes_only_created_group env_main_slow w0).
  vm_compute. reflexivity.
Defined.

(** X12. The script logs ["Perf test finished."] only when everything
    passed: the health check, the POST and the PATCH of the group were
    answered 200, every bulk-add response was answered 200 within the
    budget, no entry of any bulk-add response has status ["failed"], there
    were
    [ceil(INITIAL_MEMBER_SIZE/100)] bulk-add requests whose chunks are the
    [INITIAL_MEMBER_SIZE] generated members, all of type ["user"], and the
    deletion of the group, the last exchange, was answered 200. *)
Theorem script_finished_means_all_passed :
  forall env w,
    fst (script env w) = LogInfo "Perf test finished." ->
    exists r accessToken rh resp_h name rp resp oldId rq resp' bulk rd resp_d,
      issued w (snd (script env w))
      = [GetToken r; GetHealth accessToken rh;
         PostGroup accessToken name rp;
         PatchGroup accessToken (id (data resp)) oldId rq]
        ++ bulk ++ [DeleteGroup accessToken (id (data resp)) rd]
      /\ answered rh = Resolved resp_h /\ status resp_h = 200%Z
      /\ answered rp = Resolved resp /\ status resp = 200%Z
      /\ answered rq = Resolved resp' /\ status resp' = 200%Z
      /\ Forall (accepted_response (id (data resp)) accessToken) bulk
      /\ Forall (fun m => mr_status m <> "failed")
                (concat (map response_members bulk))
      /\ length bulk = ceil_div_100 (INITIAL_MEMBER_SIZE env)
      /\ concat (map request_chunk bulk)
         = map to_group_member (generated_members env (draws w))
      /\ length (concat (map request_chunk bulk)) = INITIAL_MEMBER_SIZE env
      /\ Forall (fun m => membershipType m = "user")
                (concat (map request_chunk bulk))
      /\ answered rd = Resolved resp_d /\ status resp_d = 200%Z.
Proof.
  intros env w Hlog. unfold script in *.
  destruct (main env w) as [o w'] eqn:Hmain. cbn [fst snd] in *.
  destruct o as [[]|e|]; try discriminate. clear Hlog.
  apply main_runs in Hmain as [[[e He] _]|Hrun]; [discriminate|].
  destruct Hrun as (r & accessToken & rh & resp_h & name & rp & resp & oldId
                    & rq & resp' & bulk & oa & result & rd
                    & Hxs & Hans_h & Hst_h & Hans_p & Hst_p & Hans_q & Hst_q
                    & Hshape & Ho).
  unfold delete_outcome in Ho.
  destruct (answered rd) as [reason|resp_d] eqn:Hans_d; [discriminate|].
  destruct (Z.eqb_spec (status resp_d) 200) as [Hst_d|Hst_d];
    cbn [negb] in Ho; [|discriminate].
  subst oa.
  pose proof (chunk_run_returns _ _ _ _ _ _ _ Hshape) as (_ & Hacc & Hnone).
  apply chunk_run_chunks in Hshape as (_ & _ & _ & Hall).
  destruct (Hall eq_refl) as [Hlen Hcover].
  rewrite Nat.sub_0_r in Hlen. cbn [skipn] in Hcover.
  exists r, accessToken, rh, resp_h, name, rp, resp, oldId, rq, resp', bulk,
    rd, resp_d.
  assert (Hsize : length (map to_group_member (generated_members env (draws w)))
                  = INITIAL_MEMBER_SIZE env).
  { unfold generated_members. now rewrite !length_map, length_seq. }
  rewrite Hsize in Hlen.
  repeat (split; [assumption|]).
  split; [now rewrite Hcover|].
  split; [|split; assumption].
  rewrite Hcover. apply Forall_forall.
  intros m Hin. apply in_map_iff in Hin as (x & <- & _). reflexivity.
Qed.

Lemma script_finished_means_all_passed_witness :
  exists bulk,
    length bulk = 2
    /\ length (concat (map request_chunk bulk)) = 150
    /\ Forall (fun m => mr_status m <> "failed")
              (concat (map response_members bulk))
    /\ exists pre post,
         issued w0 (snd (script
                           (env_with full_pages patch_ok (bulk_success 10) 150)
                           w0))
         = pre ++ bulk ++ post.
Proof.
  destruct (script_finished_means_all_passed
              (env_with full_pages patch_ok (bulk_success 10) 150) w0
              ltac:(vm_compute; reflexivity))
    as (r & accessToken & rh & resp_h & name & rp & resp & oldId & rq & resp'
        & bulk & rd & resp_d & Hxs & _ & _ & _ & _ & _ & _ & _ & Hnone & Hlen
        & _ & Hsize & _).
  exists bulk. split; [exact Hlen|]. split; [exact Hsize|].
  split; [exact Hnone|].
  eexists. eexists. exact Hxs.
Defined.

(** X13. A missing or empty config key stops [main] before any call:
    it throws the error that names the key ([AUTH0_CLIENT_ID] first) and
    leaves the world as it was. *)
Theorem main_missing_config :
  forall env w,
    falsy (AUTH0_CLIENT_ID env) = true \/ falsy (AUTH0_CLIENT_SECRET env) = true ->
    main env w
    = (Throw (Error ("Missing required config: "
                     ++ if falsy (AUTH0_CLIENT_ID env)
                        then "AUTH0_CLIENT_ID" else "AUTH0_CLIENT_SECRET")), w)
    /\ issued w (snd (main env w)) = [].
Proof.
  intros env w Hmissing. unfold main.
  destruct (falsy (AUTH0_CLIENT_ID env)) eqn:Hid.
  - split; [reflexivity|apply issued_refl].
  - destruct Hmissing as [Hid'|Hsecret]; [discriminate|].
    rewrite Hsecret. split; [reflexivity|apply issued_refl].
Qed.

(** The client secret is set to the empty string. *)
Definition env_empty_secret : environment :=
  {| auth0 := fun _ => resolved 20 200 "token";
     members_api := full_pages;
     health_api := fun _ _ => resolved 5 200 tt;
     post_group := fun _ _ _ => resolved 30 200 {| id := "g1" |};
     patch_group := patch_ok;
     delete_group := fun _ _ groupId => resolved 30 200 {| id := groupId |};
     post_members := bulk_success 10;
     uuid_v4 := fun k => ("uuid-" ++ toString k)%string;
     lodash_random := fun k => (10000000 + Z.of_nat k)%Z;
     AUTH0_CLIENT_ID := Some "client";
     AUTH0_CLIENT_SECRET := Some "";
     INITIAL_MEMBER_SIZE := 3 |}.

Lemma main_missing_config_witness :
  main env_empty_secret w0
  = (Throw (Error "Missing required config: AUTH0_CLIENT_SECRET"), w0)
  /\ issued w0 (snd (main env_empty_secret w0)) = [].
Proof.
  apply (main_missing_config env_empty_secret w0). right. reflexivity.
Defined.

(** X14. A deletion that fails decides the outcome of [main]: when the
    DELETE is rejected or answered with another status than 200, [main]
    throws the error of [deleteTestGroup], whether [addMembers] returned
    or threw (its own error is then lost), and the DELETE is the last
    exchange. *)
Theorem main_throws_deletion_error :
  forall env w o w',
    main env w = (o, w') ->
    forall k accessToken groupId r,
      nth_error (issued w w') k = Some (DeleteGroup accessToken groupId r) ->
      (forall resp, answered r = Resolved resp -> status resp <> 200%Z) ->
      length (issued w w') = S k
      /\ ((exists reason,
             answered r = Rejected reason /\ o = Throw (AxiosError reason))
          \/ (exists resp,
                answered r = Resolved resp
                /\ o = Throw (Error ("Failed to delete test group " ++ groupId
                                     ++ ": " ++ toString (data resp))))).
Proof.
  intros env w o w' Hmain k accessToken groupId r Hnth Hfails.
  apply main_runs in Hmain as [[_ Hearly]|Hrun].
  { apply nth_error_In in Hnth. apply early_stop_no_delete in Hearly.
    assert (existsb is_delete_request (issued w w') = true).
    { apply existsb_exists. eexists. split; [exact Hnth|reflexivity]. }
    congruence. }
  destruct Hrun as (r0 & accessToken0 & rh & resp_h & name & rp & resp & oldId
                    & rq & resp' & bulk & oa & result & rd
                    & Hxs & _ & _ & _ & _ & _ & _ & Hshape & Ho).
  apply chunk_run_requests in Hshape.
  rewrite Hxs, app_assoc in Hnth.
  apply nth_error_app_last in Hnth as [Hd Hlen].
  2:{ intros Hin. apply in_app_or in Hin as [Hin|Hin].
      - cbn [In] in Hin.
        destruct Hin as [H|[H|[H|[H|[]]]]]; discriminate.
      - apply (bulk_requests_not_delete _ _ _ _ Hshape) in Hin. discriminate. }
  injection Hd as -> -> ->.
  rewrite Hxs, app_assoc. split; [exact Hlen|].
  unfold delete_outcome in Ho.
  destruct (answered rd) as [reason|resp_d] eqn:Hans_d.
  - left. now exists reason.
  - right. exists resp_d. split; [reflexivity|].
    pose proof (Hfails resp_d eq_refl) as Hst.
    apply Z.eqb_neq in Hst. rewrite Hst in Ho. exact Ho.
Qed.

(** Every call succeeds, and the deletion is answered 204 No Content. *)
Definition env_delete_204 : environment :=
  {| auth0 := fun _ => resolved 20 200 "token";
     members_api := full_pages;
     health_api := fun _ _ => resolved 5 200 tt;
     post_group := fun _ _ _ => resolved 30 200 {| id := "g1" |};
     patch_group := patch_ok;
     delete_group := fun _ _ groupId => resolved 30 204 {| id := groupId |};
     post_members := bulk_success 10;
     uuid_v4 := fun k => ("uuid-" ++ toString k)%string;
     lodash_random := fun k => (10000000 + Z.of_nat k)%Z;
     AUTH0_CLIENT_ID := Some "client";
     AUTH0_CLIENT_SECRET := Some "secret";
     INITIAL_MEMBER_SIZE := 3 |}.

Lemma main_throws_deletion_error_witness :
  length (issued w0 (snd (main env_delete_204 w0))) = 6
  /\ ((exists reason,
         answered (resolved 30 204 {| id := "g1" |}) = Rejected reason
         /\ fst (main env_delete_204 w0) = Throw (AxiosError reason))
      \/ (exists resp,
            answered (resolved 30 204 {| id := "g1" |}) = Resolved resp
            /\ fst (main env_delete_204 w0)
               = Throw (Error ("Failed to delete test group " ++ "g1"
                               ++ ": " ++ toString (data resp))))).
Proof.
  apply (main_throws_deletion_error env_delete_204 w0 _ _
           (surjective_pairing _) 5 "token" "g1"
           (resolved 30 204 {| id := "g1" |})).
  - vm_compute. reflexivity.
  - intros resp [= <-]. cbn [status]. lia.
Defined.

(** X15. A failed health check ends the run: when the health check is
    rejected or answered with another status than 200, [main] throws and
    makes no further call; no group is created. *)
Theorem main_stops_when_unhealthy :
  forall env w o w',
    main env w = (o, w') ->
    forall k accessToken r,
      nth_error (issued w w') k = Some (GetHealth accessToken r) ->
      (forall resp, answered r = Resolved resp -> status resp <> 200%Z) ->
      (exists e, o = Throw e) /\ length (issued w w') = S k.
Proof.
  intros env w o w' Hmain k accessToken r Hnth Hfails.
  apply main_runs in Hmain as [[He Hearly]|Hrun].
  - split; [exact He|].
    inversion Hearly as [Hcfg Hxs|r0 reason Hans Hxs|r0 tok rh Hbad Hxs
                        |r0 tok rh resp_h name rp Hans_h Hst_h Hbad Hxs
                        |r0 tok rh resp_h name rp resp oldId rq
                           Hans_h Hst_h Hans_p Hst_p Hbad Hxs];
      rewrite <- Hxs in Hnth;
      repeat (destruct k as [|k]; cbn [nth_error] in Hnth; try discriminate);
      try reflexivity;
      injection Hnth as _ <-; exfalso; exact (Hfails resp_h Hans_h Hst_h).
  - destruct Hrun as (r0 & tok & rh & resp_h & name & rp & resp & oldId
                      & rq & resp' & bulk & oa & result & rd
                      & Hxs & Hans_h & Hst_h & _ & _ & _ & _ & Hshape & _).
    exfalso. rewrite Hxs in Hnth.
    apply chunk_run_requests in Hshape.
    destruct k as [|[|k]]; cbn [nth_error app] in Hnth; try discriminate.
    + injection Hnth as _ <-. exact (Hfails resp_h Hans_h Hst_h).
    + destruct k as [|[|k]]; cbn [nth_error] in Hnth; try discriminate.
      apply nth_error_In in Hnth. apply in_app_or in Hnth as [Hin|Hin].
      * rewrite Forall_forall in Hshape.
        destruct (Hshape _ Hin) as (chunk & r1 & Heq). discriminate.
      * destruct Hin as [Heq|[]]. discriminate.
Qed.

(** The health check is answered 503 and rejected by axios. *)
Definition env_unhealthy : environment :=
  {| auth0 := fun _ => resolved 20 200 "token";
     members_api := full_pages;
     health_api := fun _ _ => rejected 5 "Request failed with status code 503";
     post_group := fun _ _ _ => resolved 30 200 {| id := "g1" |};
     patch_group := patch_ok;
     delete_group := fun _ _ groupId => resolved 30 200 {| id := groupId |};
     post_members := bulk_success 10;
     uuid_v4 := fun k => ("uuid-" ++ toString k)%string;
     lodash_random := fun k => (10000000 + Z.of_nat k)%Z;
     AUTH0_CLIENT_ID := Some "client";
     AUTH0_CLIENT_SECRET := Some "secret";
     INITIAL_MEMBER_SIZE := 3 |}.

Lemma main_stops_when_unhealthy_witness :
  (exists e, fst (main env_unhealthy w0) = Throw e)
  /\ length (issued w0 (snd (main env_unhealthy w0))) = 2.
Proof.
  apply (main_stops_when_unhealthy env_unhealthy w0 _ _
           (surjective_pairing _) 1 "token"
           (rejected 5 "Request failed with status code 503")).
  - vm_compute. reflexivity.
  - intros resp Hans. discriminate.
Defined.
